(** * Receipt-field extraction engine: [backend/services/ocr_service.py]

    A shallow embedding of [OCRService] and of the parts of the Python
    runtime it leans on ([str] methods, the [re] backtracking matcher,
    [float], [datetime.strptime], the size arithmetic of PIL's resize),
    followed by the properties of the extraction engine.

    Conventions.
    - A Python [str] is a list of Unicode code points ([pystr]).
    - A Python [dict] with string keys is a [gmap string _]; the value
      [None] of an [Optional[str]] is [None] of [option].
    - Code that can raise returns a [result]; [try]/[except] is [catch].
    - The external capabilities (image decoding, colour conversion,
      resampling, the text recogniser, the wall clock) are fields of a
      record that the orchestrator receives, the way the code reaches them
      through module globals.
    - The extractors are reached through [self]; the orchestrator is
      written over a method table, the concrete one being
      [OCRService.self]. *)

From Stdlib Require Import ZArith NArith List Bool Ascii String Lia.
From stdpp Require Import base gmap strings list.

Local Open Scope N_scope.

(** ** Python strings *)

Module PyStr.

Definition pystr := list N.

(** An ASCII literal of the source, as code points. *)
Fixpoint str (s : string) : pystr :=
  match s with
  | EmptyString => []
  | String a s' => N_of_ascii a :: str s'
  end.

Definition in_range (lo hi x : N) : bool := (lo <=? x) && (x <=? hi).

(** [str.isspace] on one code point; the recogniser's [\s] is the same set. *)
Definition isspace (x : N) : bool :=
  in_range 9 13 x || in_range 28 32 x || (x =? 133) || (x =? 160)
  || (x =? 5760) || in_range 8192 8202 x || (x =? 8232) || (x =? 8233)
  || (x =? 8239) || (x =? 8287) || (x =? 12288).

(** First code point of every block of ten decimal digits (general
    category Nd); within a block the digit value is the offset. *)
Definition decimal_blocks : list N :=
  [48; 1632; 1776; 1984; 2406; 2534; 2662; 2790; 2918; 3046; 3174; 3302;
   3430; 3558; 3664; 3792; 3872; 4160; 4240; 6112; 6160; 6470; 6608; 6784;
   6800; 6992; 7088; 7232; 7248; 42528; 43216; 43264; 43472; 43504; 43600;
   44016; 65296; 66720; 68912; 69734; 69872; 69942; 70096; 70384; 70736;
   70864; 71248; 71360; 71472; 71904; 72016; 72784; 73040; 73120; 92768;
   92864; 93008; 120782; 120792; 120802; 120812; 120822; 123200; 123632;
   125264; 130032].

Fixpoint decimal_in (blocks : list N) (x : N) : option N :=
  match blocks with
  | [] => None
  | b :: bs => if in_range b (b + 9) x then Some (x - b) else decimal_in bs x
  end.

(** [unicodedata.decimal]: the value of a decimal digit. *)
Definition decimal (x : N) : option N := decimal_in decimal_blocks x.

(** [str.isdecimal] on one code point, which is also [\d]. *)
Definition isdecimal (x : N) : bool :=
  match decimal x with Some _ => true | None => false end.

Definition isupper_ascii (x : N) : bool := in_range 65 90 x.
Definition islower_ascii (x : N) : bool := in_range 97 122 x.
Definition isalpha_ascii (x : N) : bool := isupper_ascii x || islower_ascii x.

(** [str.lower] on one code point.  Exact on ASCII and on the two
    code points outside ASCII whose lower case contains an ASCII letter
    (U+0130, U+212A); every other code point is left alone: its lower case
    is never an ASCII letter, so no test against an ASCII keyword sees the
    difference. *)
Definition lower_char (x : N) : pystr :=
  if isupper_ascii x then [x + 32]
  else if x =? 304 then [105; 775]
  else if x =? 8490 then [107]
  else [x].

Definition lower (s : pystr) : pystr := flat_map lower_char s.

Fixpoint eqb (s t : pystr) : bool :=
  match s, t with
  | [], [] => true
  | x :: s', y :: t' => (x =? y) && eqb s' t'
  | _, _ => false
  end.

Fixpoint startswith (p s : pystr) : bool :=
  match p, s with
  | [], _ => true
  | x :: p', y :: s' => (x =? y) && startswith p' s'
  | _ :: _, [] => false
  end.

(** [p in s] for strings: [p] occurs in [s] as a substring. *)
Fixpoint contains (p s : pystr) : bool :=
  startswith p s ||
  match s with
  | [] => false
  | _ :: s' => contains p s'
  end.

Fixpoint lstrip (s : pystr) : pystr :=
  match s with
  | x :: s' => if isspace x then lstrip s' else s
  | [] => []
  end.

Definition rstrip (s : pystr) : pystr := rev (lstrip (rev s)).

(** [str.strip()] with no argument. *)
Definition strip (s : pystr) : pystr := rstrip (lstrip s).

(** [s.replace(c, '')] for a one-character [c]. *)
Definition remove_char (c : N) (s : pystr) : pystr :=
  List.filter (fun x => negb (x =? c)) s.

(** [s[:n]]. *)
Definition slice_to (n : nat) (s : pystr) : pystr := firstn n s.

(** [s.split(sep)] for a one-character separator: always at least one
    piece. *)
Fixpoint split_on (sep : N) (s : pystr) : list pystr :=
  match s with
  | [] => [[]]
  | x :: s' =>
      match split_on sep s' with
      | [] => [[]]
      | piece :: pieces =>
          if x =? sep then [] :: piece :: pieces
          else (x :: piece) :: pieces
      end
  end.

(** Decimal rendering of a natural number, zero-padded to [width] digits
    ([%04d], [%02d]). *)
Fixpoint digits_of (fuel : nat) (n : N) (acc : pystr) : pystr :=
  match fuel with
  | O => acc
  | S fuel' => digits_of fuel' (n / 10) ((48 + n mod 10) :: acc)
  end.

Definition zero_padded (width : nat) (n : N) : pystr := digits_of width n [].

End PyStr.

Export PyStr.

(** ** Exceptions *)

Inductive exn_class :=
| ValueError | ZeroDivisionError | OverflowError | OSError | RuntimeError.

Record exn := { exn_type : exn_class; exn_message : pystr }.

Inductive result (A : Type) :=
| Ok (a : A)
| Raise (e : exn).
Arguments Ok {A} a.
Arguments Raise {A} e.

#[global] Instance result_ret : MRet result := fun A a => Ok a.

#[global] Instance result_bind : MBind result := fun A B k c =>
  match c with
  | Ok a => k a
  | Raise e => Raise e
  end.

#[global] Instance result_fmap : FMap result := fun A B f c =>
  match c with
  | Ok a => Ok (f a)
  | Raise e => Raise e
  end.

(** [try: c  except Exception as e: h e]. *)
Definition catch {A} (c : result A) (h : exn -> result A) : result A :=
  match c with
  | Ok a => Ok a
  | Raise e => h e
  end.

Definition is_value_error (e : exn) : bool :=
  match exn_type e with ValueError => true | _ => false end.

(** ** Binary64 arithmetic

    Python's [float] is IEEE 754 binary64.  The code only parses decimal
    strings, divides and multiplies, compares and truncates, so a float is
    kept as its exact value [m * 2^e] and every operation is the exact
    rational result rounded to nearest, ties to even. *)

Module Float64.

Local Open Scope Z_scope.

Inductive float64 :=
| Finite (m e : Z)      (* the value m * 2^e, 0 <= m < 2^53, -1074 <= e *)
| Infinity.

Definition pow2 (k : Z) : Z := 2 ^ (Z.max 0 k).

(** [floor (log2 (n / d))] for [0 < n], [0 < d]. *)
Definition ilog2_ratio (n d : Z) : Z :=
  let k := Z.log2 n - Z.log2 d in
  if d * pow2 k <=? n * pow2 (- k) then k else k - 1.

(** The binary64 nearest to [n / d] ([0 <= n], [0 < d]), ties to even. *)
Definition round64 (n d : Z) : float64 :=
  if n =? 0 then Finite 0 (-1074)
  else
    let e := Z.max (ilog2_ratio n d - 52) (-1074) in
    let num := n * pow2 (- e) in
    let den := d * pow2 e in
    let q := num / den in
    let r := num mod den in
    let m := if 2 * r <? den then q
             else if den <? 2 * r then q + 1
             else if Z.even q then q else q + 1 in
    let '(m, e) := if m =? 2 ^ 53 then (2 ^ 52, e + 1) else (m, e) in
    if 971 <? e then Infinity else Finite m e.

(** [x < y]. *)
Definition ltb (x y : float64) : bool :=
  match x, y with
  | Finite m1 e1, Finite m2 e2 =>
      m1 * pow2 (e1 - e2) <? m2 * pow2 (e2 - e1)
  | Finite _ _, Infinity => true
  | Infinity, _ => false
  end.

(** Comparison of an [int] with a [float] is exact in Python. *)
Definition int_ltb_float (i : Z) (x : float64) : bool :=
  match x with
  | Finite m e => i * pow2 (- e) <? m * pow2 e
  | Infinity => true
  end.

Definition float_ltb_int (x : float64) (i : Z) : bool :=
  match x with
  | Finite m e => m * pow2 e <? i * pow2 (- e)
  | Infinity => false
  end.

(** [float(i)] for a non-negative [int]: overflow raises. *)
Definition of_int (i : Z) : result float64 :=
  match round64 i 1 with
  | Infinity =>
      Raise {| exn_type := OverflowError;
               exn_message := str "int too large to convert to float" |}
  | x => Ok x
  end.

(** [a / b] on two non-negative [int]s (true division, correctly
    rounded). *)
Definition int_truediv (a b : Z) : result float64 :=
  if b =? 0 then
    Raise {| exn_type := ZeroDivisionError;
             exn_message := str "division by zero" |}
  else
    match round64 a b with
    | Infinity =>
        Raise {| exn_type := OverflowError;
                 exn_message := str "integer division result too large for a float" |}
    | x => Ok x
    end.

(** [x * y] on two non-negative floats. *)
Definition mul (x y : float64) : float64 :=
  match x, y with
  | Finite m1 e1, Finite m2 e2 =>
      round64 (m1 * m2 * pow2 (e1 + e2)) (pow2 (- (e1 + e2)))
  | _, _ => Infinity
  end.

(** [i * x] with [i] an [int]: the [int] is converted first. *)
Definition int_mul (i : Z) (x : float64) : result float64 :=
  fi ← of_int i; Ok (mul fi x).

(** [int(x)]: truncation toward zero; infinity raises. *)
Definition to_int (x : float64) : result Z :=
  match x with
  | Finite m e => Ok (m * pow2 e / pow2 (- e))
  | Infinity =>
      Raise {| exn_type := OverflowError;
               exn_message := str "cannot convert float infinity to integer" |}
  end.

(** Digits of a decimal string, most significant first, as a number. *)
Fixpoint digits_value (acc : Z) (s : pystr) : option Z :=
  match s with
  | [] => Some acc
  | x :: s' =>
      match decimal x with
      | Some d => digits_value (10 * acc + Z.of_N d) s'
      | None => None
      end
  end.

(** [float(s)] on the strings the amount extractor hands over: digits
    and full stops only, starting with a digit.  On those Python accepts
    [digits] and [digits.digits*] and raises [ValueError] on anything
    else (a second full stop). *)
Definition float (s : pystr) : result float64 :=
  let bad := Raise {| exn_type := ValueError;
                      exn_message := str "could not convert string to float" |} in
  match split_on 46%N s with
  | [ip] =>
      match ip, digits_value 0 ip with
      | _ :: _, Some n => Ok (round64 n 1)
      | _, _ => bad
      end
  | [ip; fp] =>
      match ip, digits_value 0 (ip ++ fp) with
      | _ :: _, Some n => Ok (round64 n (10 ^ Z.of_nat (length fp)))
      | _, _ => bad
      end
  | _ => bad
  end.

End Float64.

(** ** The [re] matcher

    Python's [re] is a backtracking matcher: alternatives are tried left
    to right, a greedy repeat tries the longest count first and gives
    characters back one iteration at a time, and [search] returns the
    first match at the leftmost position where one exists.  The matcher
    below is that procedure, written with a success continuation. *)

Module Re.

Inductive item :=
| IChar (c : N)          (* a character of a set *)
| IRange (lo hi : N)     (* lo-hi *)
| IDigit                 (* \d *)
| ISpace.                (* \s *)

Inductive re :=
| Eps
| Lit (c : N)
| Class (negated : bool) (items : list item)      (* [...] and [^...] *)
| Seq (r1 r2 : re)
| Alt (r1 r2 : re)
| Rep (lo : nat) (hi : option nat) (r : re)       (* greedy r{lo,hi} *)
| Group (i : nat) (r : re)                        (* capturing group i *)
| WordB                                           (* \b *)
| Bol                                             (* ^ *)
| Eol.                                            (* $ *)

Record flags := { IGNORECASE : bool; MULTILINE : bool }.

(** Position of the matcher in the subject string. *)
Record mstate := {
  before : option N;             (* the character just passed, if any *)
  pos : nat;
  rest : pystr;
  groups : list (nat * pystr)
}.

Record rmatch := {
  m_start : nat;
  m_end : nat;
  m_group0 : pystr;
  m_groups : list (nat * pystr)
}.

(** The simple lower-case mapping [re] folds case with, on ASCII and on
    the two code points outside ASCII that fold to an ASCII letter. *)
Definition sre_lower (x : N) : N :=
  if isupper_ascii x then x + 32
  else if x =? 304 then 105
  else if x =? 8490 then 107
  else x.

Definition sre_upper (x : N) : N :=
  if islower_ascii x then x - 32 else x.

(** A pattern character against a subject character.  With IGNORECASE,
    [i] also matches U+0131 and [s] also matches U+017F. *)
Definition lit_match (fl : flags) (c x : N) : bool :=
  if IGNORECASE fl then
    (sre_lower x =? sre_lower c)
    || ((sre_lower c =? 105) && (x =? 305))
    || ((sre_lower c =? 115) && (x =? 383))
  else x =? c.

Definition item_match (fl : flags) (it : item) (x : N) : bool :=
  match it with
  | IChar c => lit_match fl c x
  | IRange lo hi =>
      in_range lo hi x
      || (IGNORECASE fl
          && (in_range lo hi (sre_lower x)
              || in_range lo hi (sre_upper (sre_lower x))
              || (in_range lo hi 105 && (x =? 305))
              || (in_range lo hi 115 && (x =? 383))))
  | IDigit => isdecimal x
  | ISpace => isspace x
  end.

Definition class_match (fl : flags) (negated : bool) (items : list item)
    (x : N) : bool :=
  xorb negated (existsb (fun it => item_match fl it x) items).

(** [\w]: letters, digits and the underscore.  Letters are the ASCII
    letters here. *)
Definition is_word (x : N) : bool :=
  isalpha_ascii x || isdecimal x || (x =? 95).

Definition word_opt (o : option N) : bool :=
  match o with Some x => is_word x | None => false end.

Definition advance (x : N) (xs : pystr) (s : mstate) : mstate :=
  {| before := Some x; pos := S (pos s); rest := xs; groups := groups s |}.

Definition set_group (i : nat) (g : pystr) (s : mstate) : mstate :=
  {| before := before s; pos := pos s; rest := rest s;
     groups := (i, g) :: List.filter (fun p => negb (Nat.eqb (fst p) i)) (groups s) |}.

Definition below (hi : option nat) (n : nat) : bool :=
  match hi with Some h => (n <? h)%nat | None => true end.

Definition at_bol (fl : flags) (s : mstate) : bool :=
  match before s with
  | None => true
  | Some x => MULTILINE fl && (x =? 10)
  end.

Definition at_eol (fl : flags) (s : mstate) : bool :=
  match rest s with
  | [] => true
  | [x] => x =? 10
  | x :: _ => MULTILINE fl && (x =? 10)
  end.

Definition cont := mstate -> option mstate.

(** A greedy repeat of [body], between [lo] and [hi] times: one more
    iteration is tried first, and the repeat is left when that fails.
    [n] counts the iterations done.  An iteration has to move forward,
    so there are no more of them than characters left ([fuel]). *)
Fixpoint rep_iter (body : mstate -> cont -> option mstate) (lo : nat)
    (hi : option nat) (k : cont) (fuel n : nat) (s : mstate) {struct fuel}
    : option mstate :=
  let leave := if (lo <=? n)%nat then k s else None in
  match fuel with
  | O => leave
  | S fuel' =>
      if below hi n then
        match body s (fun s' => if (pos s <? pos s')%nat
                                then rep_iter body lo hi k fuel' (S n) s'
                                else None) with
        | Some m => Some m
        | None => leave
        end
      else leave
  end.

(** [run fl r s k]: match [r] at [s], then hand the position reached to
    [k]; when [k] fails, the next way of matching [r] is tried. *)
Fixpoint run (fl : flags) (r : re) (s : mstate) (k : cont) {struct r}
    : option mstate :=
  match r with
  | Eps => k s
  | Lit c =>
      match rest s with
      | x :: xs => if lit_match fl c x then k (advance x xs s) else None
      | [] => None
      end
  | Class negated items =>
      match rest s with
      | x :: xs =>
          if class_match fl negated items x then k (advance x xs s) else None
      | [] => None
      end
  | Seq r1 r2 => run fl r1 s (fun s' => run fl r2 s' k)
  | Alt r1 r2 =>
      match run fl r1 s k with
      | Some m => Some m
      | None => run fl r2 s k
      end
  | Rep lo hi r1 => rep_iter (run fl r1) lo hi k (length (rest s)) O s
  | Group i r1 =>
      run fl r1 s
        (fun s' => k (set_group i (firstn (pos s' - pos s) (rest s)) s'))
  | WordB =>
      if xorb (word_opt (before s)) (word_opt (head (rest s)))
      then k s else None
  | Bol => if at_bol fl s then k s else None
  | Eol => if at_eol fl s then k s else None
  end.

(** One attempt at a given position. *)
Definition match_at (fl : flags) (r : re) (bf : option N) (p : nat)
    (rs : pystr) : option rmatch :=
  match run fl r {| before := bf; pos := p; rest := rs; groups := [] |} Some with
  | Some s' =>
      Some {| m_start := p; m_end := pos s';
              m_group0 := firstn (pos s' - p) rs; m_groups := groups s' |}
  | None => None
  end.

Fixpoint scan (fl : flags) (r : re) (bf : option N) (p : nat) (rs : pystr)
    : option rmatch :=
  match match_at fl r bf p rs with
  | Some m => Some m
  | None =>
      match rs with
      | [] => None
      | x :: xs => scan fl r (Some x) (S p) xs
      end
  end.

(** [re.search(pattern, text, flags)]. *)
Definition search (fl : flags) (r : re) (text : pystr) : option rmatch :=
  scan fl r None O text.

(** [re.match(pattern, text, flags)]. *)
Definition match_ (fl : flags) (r : re) (text : pystr) : option rmatch :=
  match_at fl r None O text.

(** [m.group(i)] for a group that took part in the match. *)
Definition group (i : nat) (m : rmatch) : pystr :=
  match i with
  | O => m_group0 m
  | _ =>
      match List.find (fun p => Nat.eqb (fst p) i) (m_groups m) with
      | Some (_, g) => g
      | None => []
      end
  end.

(** The successive non-overlapping matches, left to right; [skip] counts
    the characters of the last match still to be passed. *)
Fixpoint finditer (fl : flags) (r : re) (skip : nat) (bf : option N)
    (p : nat) (rs : pystr) : list rmatch :=
  match skip with
  | S skip' =>
      match rs with
      | [] => []
      | x :: xs => finditer fl r skip' (Some x) (S p) xs
      end
  | O =>
      match match_at fl r bf p rs with
      | Some m =>
          m :: match rs with
               | [] => []
               | x :: xs =>
                   finditer fl r (m_end m - p - 1) (Some x) (S p) xs
               end
      | None =>
          match rs with
          | [] => []
          | x :: xs => finditer fl r O (Some x) (S p) xs
          end
      end
  end.

(** [re.findall] for a pattern with one group: the group of each match. *)
Definition findall (fl : flags) (r : re) (text : pystr) : list pystr :=
  map (group 1) (finditer fl r O None O text).

(** [re.sub(pattern, '', text)]: the text without what the matches cover. *)
Fixpoint sub_empty (fl : flags) (r : re) (skip : nat) (bf : option N)
    (p : nat) (rs : pystr) : pystr :=
  match rs with
  | [] => []
  | x :: xs =>
      match skip with
      | S skip' => sub_empty fl r skip' (Some x) (S p) xs
      | O =>
          match match_at fl r bf p rs with
          | Some m =>
              match (m_end m - p)%nat with
              | O => x :: sub_empty fl r O (Some x) (S p) xs
              | S n => sub_empty fl r n (Some x) (S p) xs
              end
          | None => x :: sub_empty fl r O (Some x) (S p) xs
          end
      end
  end.

Definition sub (fl : flags) (r : re) (text : pystr) : pystr :=
  sub_empty fl r O None O text.

(** Pattern-building shorthands. *)
Definition ch (a : ascii) : N := N_of_ascii a.

Fixpoint lits (s : pystr) : re :=
  match s with
  | [] => Eps
  | [c] => Lit c
  | c :: s' => Seq (Lit c) (lits s')
  end.

Fixpoint seqs (rs : list re) : re :=
  match rs with
  | [] => Eps
  | [r] => r
  | r :: rs' => Seq r (seqs rs')
  end.

Fixpoint alts (rs : list re) : re :=
  match rs with
  | [] => Class false []
  | [r] => r
  | r :: rs' => Alt r (alts rs')
  end.

Definition star (r : re) : re := Rep 0 None r.
Definition plus (r : re) : re := Rep 1 None r.
Definition opt (r : re) : re := Rep 0 (Some 1%nat) r.
Definition times (lo hi : nat) (r : re) : re := Rep lo (Some hi) r.
Definition digit : re := Class false [IDigit].
Definition space : re := Class false [ISpace].

Definition no_flags : flags := {| IGNORECASE := false; MULTILINE := false |}.
Definition I : flags := {| IGNORECASE := true; MULTILINE := false |}.
Definition IM : flags := {| IGNORECASE := true; MULTILINE := true |}.

End Re.

(** ** [datetime.strptime] and [strftime]

    [strptime] turns the format into a regular expression (one named
    group per directive, a run of white space into [\s+]), matches it
    case-insensitively at the start of the string, insists that the match
    covers the whole string, and builds the date, which fails on a day the
    month does not have and on year 0.  Every failure is a [ValueError]. *)

Module Strptime.

Import Re.

Record date := { year : Z; month : Z; day : Z }.

Definition f_month : list pystr :=
  map str ["january"; "february"; "march"; "april"; "may"; "june"; "july";
           "august"; "september"; "october"; "november"; "december"]%string.

Definition a_month : list pystr :=
  map str ["jan"; "feb"; "mar"; "apr"; "may"; "jun"; "jul"; "aug"; "sep";
           "oct"; "nov"; "dec"]%string.

(** [sorted(names, key=len, reverse=True)]: stable, longest first. *)
Fixpoint insert_by_len (x : pystr) (l : list pystr) : list pystr :=
  match l with
  | [] => [x]
  | y :: l' =>
      if (length y <? length x)%nat then x :: y :: l'
      else y :: insert_by_len x l'
  end.

Definition sorted_by_len (l : list pystr) : list pystr :=
  fold_left (fun acc x => insert_by_len x acc) l [].

Definition seqToRE (names : list pystr) (g : nat) : re :=
  Group g (alts (map lits (sorted_by_len names))).

(** Group numbers standing for the names d, m, Y, B, b. *)
Definition g_d : nat := 1.
Definition g_m : nat := 2.
Definition g_Y : nat := 3.
Definition g_B : nat := 4.
Definition g_b : nat := 5.

Definition directive (d : N) : option re :=
  if d =? ch "d" then
    (* "(?P<d>3[0-1]|[1-2]\d|0[1-9]|[1-9]| [1-9])" *)
    Some (Group g_d (alts
      [Seq (Lit (ch "3")) (Class false [IRange (ch "0") (ch "1")]);
       Seq (Class false [IRange (ch "1") (ch "2")]) digit;
       Seq (Lit (ch "0")) (Class false [IRange (ch "1") (ch "9")]);
       Class false [IRange (ch "1") (ch "9")];
       Seq (Lit (ch " ")) (Class false [IRange (ch "1") (ch "9")])]))
  else if d =? ch "m" then
    (* "(?P<m>1[0-2]|0[1-9]|[1-9])" *)
    Some (Group g_m (alts
      [Seq (Lit (ch "1")) (Class false [IRange (ch "0") (ch "2")]);
       Seq (Lit (ch "0")) (Class false [IRange (ch "1") (ch "9")]);
       Class false [IRange (ch "1") (ch "9")]]))
  else if d =? ch "Y" then
    (* "(?P<Y>\d\d\d\d)" *)
    Some (Group g_Y (seqs [digit; digit; digit; digit]))
  else if d =? ch "B" then Some (seqToRE f_month g_B)
  else if d =? ch "b" then Some (seqToRE a_month g_b)
  else None.

(** The pieces of the format's regular expression; [in_space] says that
    the white space just before has already become its [\s+]. *)
Fixpoint pattern (in_space : bool) (format : pystr) : option (list re) :=
  match format with
  | [] => Some []
  | x :: format' =>
      if x =? ch "%" then
        match format' with
        | d :: format'' =>
            match directive d, pattern false format'' with
            | Some r, Some rs => Some (r :: rs)
            | _, _ => None
            end
        | [] => None
        end
      else if isspace x then
        match pattern true format' with
        | Some rs => Some (if in_space then rs else plus space :: rs)
        | None => None
        end
      else
        match pattern false format' with
        | Some rs => Some (Lit x :: rs)
        | None => None
        end
  end.

Definition value_error (msg : string) : exn :=
  {| exn_type := ValueError; exn_message := str msg |}.

(** [int(s)] on a group of the match: digits, possibly after a blank. *)
Definition int_of (s : pystr) : option Z :=
  match strip s with
  | [] => None
  | t => Float64.digits_value 0 t
  end.

Fixpoint index_of (x : pystr) (l : list pystr) (i : Z) : option Z :=
  match l with
  | [] => None
  | y :: l' => if PyStr.eqb x y then Some i else index_of x l' (i + 1)%Z
  end.

Definition has_group (i : nat) (m : rmatch) : bool :=
  existsb (fun p => Nat.eqb (fst p) i) (m_groups m).

Definition is_leap (y : Z) : bool :=
  ((y mod 4 =? 0) && negb (y mod 100 =? 0) || (y mod 400 =? 0))%Z.

Definition days_in_month (y m : Z) : Z :=
  (if m =? 2 then (if is_leap y then 29 else 28)
   else if (m =? 4) || (m =? 6) || (m =? 9) || (m =? 11) then 30
   else 31)%Z.

(** [datetime.date(y, m, d)]. *)
Definition make_date (y m d : Z) : result date :=
  if ((1 <=? y) && (y <=? 9999) && (1 <=? m) && (m <=? 12)
      && (1 <=? d) && (d <=? days_in_month y m))%Z
  then Ok {| year := y; month := m; day := d |}
  else Raise (value_error "day is out of range for month").

Definition field (g : nat) (m : rmatch) (default : Z) : result Z :=
  if has_group g m then
    match int_of (group g m) with
    | Some v => Ok v
    | None => Raise (value_error "invalid literal for int()")
    end
  else Ok default.

Definition month_field (m : rmatch) : result Z :=
  if has_group g_B m then
    match index_of (lower (group g_B m)) f_month 1 with
    | Some v => Ok v
    | None => Raise (value_error "is not in list")
    end
  else if has_group g_b m then
    match index_of (lower (group g_b m)) a_month 1 with
    | Some v => Ok v
    | None => Raise (value_error "is not in list")
    end
  else field g_m m 1.

Definition strptime (data_string format : pystr) : result date :=
  match pattern false format with
  | None => Raise (value_error "bad directive in format")
  | Some rs =>
      match match_ I (seqs rs) data_string with
      | None => Raise (value_error "time data does not match format")
      | Some found =>
          if negb (Nat.eqb (length data_string) (m_end found)) then
            Raise (value_error "unconverted data remains")
          else
            y ← field g_Y found 1900;
            mo ← month_field found;
            d ← field g_d found 1;
            make_date y mo d
      end
  end.

(** [d.strftime('%Y-%m-%d')], the year on four digits. *)
Definition strftime_ymd (d : date) : pystr :=
  zero_padded 4 (Z.to_N (year d)) ++ [ch "-"]
  ++ zero_padded 2 (Z.to_N (month d)) ++ [ch "-"]
  ++ zero_padded 2 (Z.to_N (day d)).

End Strptime.

(** ** Images and the runtime the service runs on *)

Record pil_image := {
  mode : string;
  size : Z * Z;            (* (width, height) *)
  raster : N               (* stands for the pixel data *)
}.

(** What the service reaches through its imports: PIL, pytesseract and
    the clock.  Every call into a library may raise. *)
Record runtime := {
  Image_open : list Byte.byte -> result pil_image;
  convert : pil_image -> string -> result pil_image;
  resize : pil_image -> Z * Z -> result pil_image;       (* Image.LANCZOS *)
  image_to_string : pil_image -> result pystr;
  now : Strptime.date
}.

(** The result mapping: [None] is Python's [None]. *)
Abbreviation response := (gmap string (option pystr)).

(** The seven extractors as [extract_expense_details] reaches them,
    through [self]. *)
Record methods := {
  extract_employee : pystr -> result (option pystr);
  extract_description : pystr -> result (option pystr);
  extract_date : pystr -> result (option pystr);
  extract_category : pystr -> result pystr;
  extract_payment_method : pystr -> result pystr;
  extract_remark : pystr -> result (option pystr);
  extract_amount : pystr -> result (option pystr)
}.

(** ** The service *)

Module OCRService.

Import Re Float64 Strptime.

(** *** [_preprocess_image] *)

(** The handler returns the variable [image], that is the last image the
    body of the [try] had assigned before the exception. *)
Definition _preprocess_image (rt : runtime) (image : pil_image) : pil_image :=
  match (if negb (String.eqb (mode image) "RGB")
         then convert rt image "RGB" else Ok image) with
  | Raise _ => image
  | Ok image1 =>
      match convert rt image1 "L" with
      | Raise _ => image1
      | Ok image2 =>
          let '(width, height) := size image2 in
          if (width <? 1000)%Z then
            match (scale_factor ← int_truediv 1500 width;
                   w ← int_mul width scale_factor;
                   new_width ← to_int w;
                   h ← int_mul height scale_factor;
                   new_height ← to_int h;
                   resize rt image2 (new_width, new_height)) with
            | Ok image3 => image3
            | Raise _ => image2
            end
          else image2
      end
  end.

(** *** [_extract_amount] *)

(** The set "[\$₹€£]". *)
Definition currency : re :=
  Class false [IChar (ch "$"); IChar 8377; IChar 8364; IChar 163].

(** The capturing group around "\d+[,.]?\d*\.?\d*". *)
Definition number_token : re :=
  Group 1 (seqs [plus digit; opt (Class false [IChar (ch ","); IChar (ch ".")]);
                 star digit; opt (Lit (ch ".")); star digit]).

(** A label, then "[:\s]*", "[\$₹€£]?", "\s*" and the number group; the
    labels are "total", "amount", "grand\s*total" and "balance". *)
Definition labelled (label : re) : re :=
  seqs [label; star (Class false [IChar (ch ":"); ISpace]); opt currency;
        star space; number_token].

Definition total_pattern : re := labelled (lits (str "total")).
Definition amount_pattern : re := labelled (lits (str "amount")).
Definition grand_total_pattern : re :=
  labelled (seqs [lits (str "grand"); star space; lits (str "total")]).
Definition balance_pattern : re := labelled (lits (str "balance")).
(** The currency set, then "\s*" and the number group. *)
Definition symbol_pattern : re := seqs [currency; star space; number_token].

Definition amount_patterns : list re :=
  [total_pattern; amount_pattern; grand_total_pattern; balance_pattern;
   symbol_pattern].

(** "\b(\d+\.\d{2})\b" *)
Definition money_token : re :=
  seqs [WordB; Group 1 (seqs [plus digit; Lit (ch "."); times 2 2 digit]);
        WordB].

(** [0 < float_amount < 1000000] *)
Definition in_range_amount (x : float64) : bool :=
  int_ltb_float 0 x && float_ltb_int x 1000000.

(** One turn of the loop over the patterns: [Some amount] when the turn
    returns, [None] when the loop goes on. *)
Definition amount_pass (text : pystr) (pattern : re)
    : result (option pystr) :=
  match search IM pattern text with
  | Some m =>
      let amount := remove_char (ch ",") (group 1 m) in
      catch (float_amount ← float amount;
             if in_range_amount float_amount then Ok (Some amount)
             else Ok None)
            (fun e => if is_value_error e then Ok None else Raise e)
  | None => Ok None
  end.

(** [max(amounts, key=lambda x: float(x))]: the first of the largest. *)
Fixpoint max_by_float (best : pystr) (kbest : float64) (l : list pystr)
    : result pystr :=
  match l with
  | [] => Ok best
  | x :: l' =>
      kx ← float x;
      if ltb kbest kx then max_by_float x kx l'
      else max_by_float best kbest l'
  end.

(** What follows the loop. *)
Definition amount_fallback (text : pystr) : result (option pystr) :=
  match findall no_flags money_token text with
  | [] => Ok None
  | x :: amounts =>
      kx ← float x;
      best ← max_by_float x kx amounts;
      Ok (Some best)
  end.

Fixpoint amount_loop (patterns : list re) (text : pystr)
    : result (option pystr) :=
  match patterns with
  | [] => amount_fallback text
  | pattern :: patterns' =>
      r ← amount_pass text pattern;
      match r with
      | Some amount => Ok (Some amount)
      | None => amount_loop patterns' text
      end
  end.

Definition _extract_amount (text : pystr) : result (option pystr) :=
  amount_loop amount_patterns text.

(** *** [_extract_date] *)

Definition sep : re := Class false [IChar (ch "-"); IChar (ch "/")].

Definition date_patterns : list re :=
  [ (* "(\d{1,2}[-/]\d{1,2}[-/]\d{2,4})" *)
    Group 1 (seqs [times 1 2 digit; sep; times 1 2 digit; sep; times 2 4 digit]);
    (* "(\d{4}[-/]\d{1,2}[-/]\d{1,2})" *)
    Group 1 (seqs [times 4 4 digit; sep; times 1 2 digit; sep; times 1 2 digit]);
    (* "(\d{1,2}\s+(?:jan|feb|mar|apr|may|jun|jul|aug|sep|oct|nov|dec)[a-z]*\s+\d{2,4})" *)
    Group 1 (seqs [times 1 2 digit; plus space;
                   alts (map (fun m => lits (str m))
                           ["jan"; "feb"; "mar"; "apr"; "may"; "jun"; "jul";
                            "aug"; "sep"; "oct"; "nov"; "dec"]%string);
                   star (Class false [IRange (ch "a") (ch "z")]);
                   plus space; times 2 4 digit]) ].

Definition date_formats : list pystr :=
  map str ["%d-%m-%Y"; "%m-%d-%Y"; "%Y-%m-%d"; "%d/%m/%Y"; "%m/%d/%Y";
           "%d %B %Y"; "%d %b %Y"]%string.

(** The loop over the formats: [Some] when a format parses. *)
Fixpoint parse_formats (date_str : pystr) (formats : list pystr)
    : result (option pystr) :=
  match formats with
  | [] => Ok None
  | fmt :: formats' =>
      catch (parsed_date ← strptime date_str fmt;
             Ok (Some (strftime_ymd parsed_date)))
            (fun e => if is_value_error e then parse_formats date_str formats'
                      else Raise e)
  end.

(** One turn of the loop over the patterns. *)
Definition date_pass (text : pystr) (pattern : re) : result (option pystr) :=
  match search I pattern text with
  | Some m => parse_formats (group 0 m) date_formats
  | None => Ok None
  end.

Fixpoint date_loop (rt : runtime) (patterns : list re) (text : pystr)
    : result (option pystr) :=
  match patterns with
  | [] => Ok (Some (strftime_ymd (now rt)))
  | pattern :: patterns' =>
      r ← date_pass text pattern;
      match r with
      | Some d => Ok (Some d)
      | None => date_loop rt patterns' text
      end
  end.

Definition _extract_date (rt : runtime) (text : pystr)
    : result (option pystr) :=
  date_loop rt date_patterns text.

(** *** [_extract_category] and [_extract_payment_method] *)

Definition categories : list (string * list string) :=
  [("Food", ["restaurant"; "cafe"; "coffee"; "food"; "dining"; "meal";
             "breakfast"; "lunch"; "dinner"; "pizza"; "burger"; "kitchen";
             "grill"; "bistro"]);
   ("Transportation", ["taxi"; "uber"; "lyft"; "ola"; "fuel"; "gas";
                       "petrol"; "parking"; "toll"; "metro"; "train";
                       "flight"; "bus"]);
   ("Accommodation", ["hotel"; "motel"; "accommodation"; "lodging";
                      "airbnb"; "resort"]);
   ("Office Supplies", ["office"; "supplies"; "stationery"; "printer";
                        "paper"]);
   ("Entertainment", ["movie"; "cinema"; "theater"; "entertainment"; "show"]);
   ("Medical", ["pharmacy"; "medical"; "hospital"; "clinic"; "doctor";
                "medicine"]);
   ("Utilities", ["electric"; "water"; "internet"; "phone"; "utility"])]%string.

Definition payment_methods : list (string * list string) :=
  [("Credit Card", ["credit"; "visa"; "mastercard"; "amex"]);
   ("Debit Card", ["debit"]);
   ("UPI", ["upi"; "paytm"; "gpay"; "phonepe"; "bhim"]);
   ("Cash", ["cash"])]%string.

(** [any(keyword in text_lower for keyword in keywords)] *)
Definition any_keyword (keywords : list string) (text_lower : pystr) : bool :=
  existsb (fun keyword => contains (str keyword) text_lower) keywords.

(** The loop over [table.items()], in insertion order. *)
Fixpoint first_label (table : list (string * list string))
    (text_lower : pystr) (default : string) : string :=
  match table with
  | [] => default
  | (label, keywords) :: table' =>
      if any_keyword keywords text_lower then label
      else first_label table' text_lower default
  end.

Definition _extract_category (text : pystr) : pystr :=
  let text_lower := lower text in
  str (first_label categories text_lower "Other").

Definition _extract_payment_method (text : pystr) : pystr :=
  let text_lower := lower text in
  str (first_label payment_methods text_lower "Cash").

(** *** [_extract_description] *)

(** "^[\d\s\-/:.]+$" *)
Definition numeric_line : re :=
  seqs [Bol;
        plus (Class false [IDigit; ISpace; IChar (ch "-"); IChar (ch "/");
                           IChar (ch ":"); IChar (ch ".")]);
        Eol].

(** "^\d{1,2}[-/]\d{1,2}[-/]\d{2,4}$" *)
Definition date_line : re :=
  seqs [Bol; times 1 2 digit; sep; times 1 2 digit; sep; times 2 4 digit; Eol].

(** "[^a-zA-Z0-9\s&'-]" *)
Definition unwanted : re :=
  Class true [IRange (ch "a") (ch "z"); IRange (ch "A") (ch "Z");
              IRange (ch "0") (ch "9"); ISpace; IChar (ch "&");
              IChar 39; IChar (ch "-")].

Definition is_some {A} (o : option A) : bool :=
  match o with Some _ => true | None => false end.

Fixpoint description_loop (lines : list pystr) : option pystr :=
  match lines with
  | [] => None
  | line :: lines' =>
      let line := strip line in
      if negb (Nat.eqb (length line) 0) && (3 <? length line)%nat
         && negb (is_some (match_ no_flags numeric_line line))
         && negb (is_some (match_ no_flags date_line line))
      then
        let clean_line := sub no_flags unwanted line in
        if (3 <? length (strip clean_line))%nat
        then Some (slice_to 100 (strip clean_line))
        else description_loop lines'
      else description_loop lines'
  end.

Definition _extract_description (text : pystr) : option pystr :=
  let lines := split_on 10 text in
  description_loop (firstn 5 lines).

(** *** [_extract_employee] *)

Definition name_run : re :=
  Group 1 (plus (Class false [IRange (ch "a") (ch "z"); ISpace])).

Definition employee_patterns : list re :=
  [ (* "(?:name|employee|customer)[:\s]+([a-z\s]+)" *)
    seqs [alts [lits (str "name"); lits (str "employee"); lits (str "customer")];
          plus (Class false [IChar (ch ":"); ISpace]); name_run];
    (* "(?:mr|ms|mrs)[.\s]+([a-z\s]+)" *)
    seqs [alts [lits (str "mr"); lits (str "ms"); lits (str "mrs")];
          plus (Class false [IChar (ch "."); ISpace]); name_run] ].

(** [str.title()] on what the name group can hold: ASCII letters, white
    space, and the four letters outside ASCII that "[a-z]" accepts when
    case is ignored (U+0130, U+0131, U+017F, U+212A). *)
Fixpoint name_title (prev_cased : bool) (s : pystr) : pystr :=
  match s with
  | [] => []
  | x :: s' =>
      if isalpha_ascii x then
        (if prev_cased
         then (if isupper_ascii x then x + 32 else x)
         else (if islower_ascii x then x - 32 else x)) :: name_title true s'
      else if x =? 304 then
        (if prev_cased then [105; 775] else [304]) ++ name_title true s'
      else if x =? 305 then
        (if prev_cased then 305 else 73) :: name_title true s'
      else if x =? 383 then
        (if prev_cased then 383 else 83) :: name_title true s'
      else if x =? 8490 then
        (if prev_cased then 107 else 8490) :: name_title true s'
      else x :: name_title false s'
  end.

Fixpoint employee_loop (patterns : list re) (text : pystr) : option pystr :=
  match patterns with
  | [] => None
  | pattern :: patterns' =>
      match search I pattern text with
      | Some m =>
          let name := strip (group 1 m) in
          if (2 <? length name)%nat && (length name <? 50)%nat
             && negb (is_some (search no_flags digit name))
          then Some (name_title false name)
          else employee_loop patterns' text
      | None => employee_loop patterns' text
      end
  end.

Definition _extract_employee (text : pystr) : option pystr :=
  employee_loop employee_patterns text.

(** *** [_extract_remark] *)

(** "note|remark|comment|memo" *)
Definition remark_word : re :=
  alts [lits (str "note"); lits (str "remark"); lits (str "comment");
        lits (str "memo")].

(** The loop over [enumerate(lines)]; [lines] is what is left from index
    [i] on, so [i + 1 < len(lines)] asks for a second element. *)
Fixpoint remark_loop (lines : list pystr) : option pystr :=
  match lines with
  | [] => None
  | line :: lines' =>
      if is_some (search I remark_word line) then
        match lines' with
        | next :: _ => Some (slice_to 200 (strip next))
        | [] => remark_loop lines'
        end
      else remark_loop lines'
  end.

Definition _extract_remark (text : pystr) : option pystr :=
  remark_loop (split_on 10 text).

(** *** [_empty_response] and [extract_expense_details] *)

Definition _empty_response (rt : runtime) (error_message : pystr) : response :=
  <["employee" := None]>
  (<["description" := match error_message with
                      | [] => None
                      | _ => Some error_message
                      end]>
  (<["date" := Some (strftime_ymd (now rt))]>
  (<["category" := Some (str "Other")]>
  (<["paid_by" := Some (str "Cash")]>
  (<["remark" := None]>
  (<["amount" := None]> ∅)))))).

Definition no_text_message : pystr :=
  str "No text detected in image. Please ensure the receipt is clear and well-lit.".

(** The body of the [try] of [extract_expense_details]. *)
Definition extract_body (rt : runtime) (self : methods)
    (image_content : list Byte.byte) : result response :=
  image ← Image_open rt image_content;
  let image := _preprocess_image rt image in
  full_text ← image_to_string rt image;
  if Nat.eqb (length full_text) 0 || (length (strip full_text) <? 10)%nat then
    Ok (_empty_response rt no_text_message)
  else
    employee ← extract_employee self full_text;
    description ← extract_description self full_text;
    date ← extract_date self full_text;
    category ← extract_category self full_text;
    paid_by ← extract_payment_method self full_text;
    remark ← extract_remark self full_text;
    amount ← extract_amount self full_text;
    Ok (<["employee" := employee]>
        (<["description" := description]>
        (<["date" := date]>
        (<["category" := Some category]>
        (<["paid_by" := Some paid_by]>
        (<["remark" := remark]>
        (<["amount" := amount]> ∅))))))).

(** The calls to [print] and [traceback.print_exc] write to the console
    and leave the returned value alone; they are left out. *)
Definition extract_expense_details (rt : runtime) (self : methods)
    (image_content : list Byte.byte) : result response :=
  catch (extract_body rt self image_content)
        (fun e => Ok (_empty_response rt
                        (str "OCR processing failed: " ++ exn_message e))).

(** The method table of the class as written. *)
Definition self (rt : runtime) : methods := {|
  extract_employee := fun text => Ok (_extract_employee text);
  extract_description := fun text => Ok (_extract_description text);
  extract_date := _extract_date rt;
  extract_category := fun text => Ok (_extract_category text);
  extract_payment_method := fun text => Ok (_extract_payment_method text);
  extract_remark := fun text => Ok (_extract_remark text);
  extract_amount := _extract_amount
|}.

End OCRService.


(** ** The upload endpoint ([main.py] and [routes/user.py])

    Both files hold the same [validate_image_file] and the same
    [process_receipt_ocr]; [main.py] adds calls to [print]. *)

Module Endpoint.

Import OCRService.

Record UploadFile := {
  filename : option pystr;
  content_type : option pystr;
  read : result (list Byte.byte)          (* await receipt.read() *)
}.

(** What a piece of the handler does: it returns, raises an
    [HTTPException], or raises something else. *)
Inductive outcome (A : Type) :=
| Return (a : A)
| HTTPException (status_code : Z) (detail : pystr)
| Error (e : exn).
Arguments Return {A} a.
Arguments HTTPException {A} status_code detail.
Arguments Error {A} e.

(** 10 * 1024 * 1024 *)
Definition MAX_FILE_SIZE : N := 10485760.

Definition ALLOWED_EXTENSIONS : list pystr :=
  map str ["png"; "jpg"; "jpeg"; "gif"; "bmp"; "tiff"; "webp"]%string.

(** [x in s] for a set (or list) of strings. *)
Definition member (x : pystr) (s : list pystr) : bool :=
  existsb (PyStr.eqb x) s.

(** [not s] for an optional string: [None] and the empty string. *)
Definition falsy (s : option pystr) : bool :=
  match s with
  | None => true
  | Some [] => true
  | Some _ => false
  end.

(** [allowed_listing] stands for [', '.join(ALLOWED_EXTENSIONS)]: the
    order in which a set is listed is not fixed by the language. *)
Definition validate_image_file (allowed_listing : pystr) (file : UploadFile)
    : outcome unit :=
  match filename file with
  | None => HTTPException 400 (str "No filename provided")
  | Some [] => HTTPException 400 (str "No filename provided")
  | Some name =>
      let file_ext := lower (List.last (split_on 46 name) []) in
      if negb (member file_ext ALLOWED_EXTENSIONS) then
        HTTPException 400
          (str "Invalid file type. Allowed types: " ++ allowed_listing)
      else
        match content_type file with
        | None => HTTPException 400 (str "File must be an image")
        | Some ct =>
            if falsy (Some ct) || negb (startswith (str "image/") ct)
            then HTTPException 400 (str "File must be an image")
            else Return ()
        end
  end.

Record reply := {
  success : bool;
  message : pystr;
  data : response
}.

(** The body of the [try] of [process_receipt_ocr]. *)
Definition receipt_body (rt : runtime) (self : methods)
    (allowed_listing : pystr) (receipt : UploadFile) : outcome reply :=
  match validate_image_file allowed_listing receipt with
  | HTTPException status_code detail => HTTPException status_code detail
  | Error e => Error e
  | Return _ =>
      match read receipt with
      | Raise e => Error e
      | Ok file_content =>
          if (MAX_FILE_SIZE <? N.of_nat (length file_content))%N then
            (* MAX_FILE_SIZE / (1024*1024) is the float 10.0 *)
            HTTPException 400
              (str "File size exceeds maximum allowed size of 10.0MB")
          else
            match extract_expense_details rt self file_content with
            | Raise e => Error e
            | Ok extracted_data =>
                Return {| success := true;
                          message := str "Receipt processed successfully";
                          data := extracted_data |}
            end
      end
  end.

(** What the client gets. *)
Inductive answer :=
| Reply (r : reply)
| Abort (status_code : Z) (detail : pystr).

(** [except HTTPException: raise] and [except Exception as e: raise
    HTTPException(500, ...)]. *)
Definition process_receipt_ocr (rt : runtime) (self : methods)
    (allowed_listing : pystr) (receipt : UploadFile) : answer :=
  match receipt_body rt self allowed_listing receipt with
  | Return r => Reply r
  | HTTPException status_code detail => Abort status_code detail
  | Error e =>
      Abort 500 (str "Failed to process receipt: " ++ exn_message e)
  end.

End Endpoint.

(** ** The validators of the [Expense] model ([models/expense.py]) *)

Module Expense.

Definition valid_categories : list pystr :=
  map str ["Food"; "Transportation"; "Accommodation"; "Office Supplies";
           "Entertainment"; "Medical"; "Utilities"; "Other"]%string.

Definition valid_methods : list pystr :=
  map str ["Cash"; "Credit Card"; "Debit Card"; "UPI"]%string.

Definition valid_statuses : list pystr :=
  map str ["Pending"; "Approved"; "Rejected"]%string.

Definition valid_category (v : pystr) : pystr :=
  if negb (Endpoint.member v valid_categories) then str "Other" else v.

Definition valid_payment_method (v : pystr) : pystr :=
  if negb (Endpoint.member v valid_methods) then str "Cash" else v.

Definition valid_status (v : pystr) : pystr :=
  if negb (Endpoint.member v valid_statuses) then str "Pending" else v.

End Expense.

(** ** Sample runtimes and inputs, used to run the service *)

Module Sample.

Import OCRService Strptime.

(** A PIL that always succeeds: conversion changes the mode, resampling
    changes the size. *)
Definition pil_convert (im : pil_image) (m : string) : result pil_image :=
  Ok {| mode := m; size := size im; raster := raster im |}.

Definition pil_resize (im : pil_image) (sz : Z * Z) : result pil_image :=
  Ok {| mode := mode im; size := sz; raster := raster im |}.

Definition photo (w h : Z) : pil_image :=
  {| mode := "RGB"; size := (w, h); raster := 0 |}.

Definition today : date := {| year := 2026; month := 11; day := 3 |}.

(** Every byte string decodes to an 800x601 photo on which the recogniser
    reads [text]. *)
Definition reads (text : pystr) : runtime := {|
  Image_open := fun _ => Ok (photo 800 601);
  convert := pil_convert;
  resize := pil_resize;
  image_to_string := fun _ => Ok text;
  now := today
|}.

(** No byte string decodes. *)
Definition undecodable : runtime := {|
  Image_open := fun _ =>
    Raise {| exn_type := OSError;
             exn_message := str "cannot identify image file" |};
  convert := pil_convert;
  resize := pil_resize;
  image_to_string := fun _ => Ok [];
  now := today
|}.

(** The class with [_extract_amount] replaced by a method that raises. *)
Definition amount_raises (rt : runtime) : methods := {|
  extract_employee := extract_employee (self rt);
  extract_description := extract_description (self rt);
  extract_date := extract_date (self rt);
  extract_category := extract_category (self rt);
  extract_payment_method := extract_payment_method (self rt);
  extract_remark := extract_remark (self rt);
  extract_amount := fun _ =>
    Raise {| exn_type := RuntimeError; exn_message := str "boom" |}
|}.

Definition nl : string := String (ascii_of_N 10) EmptyString.

Definition uber_receipt : pystr :=
  str ("Uber BV" ++ nl ++ "Trip fare" ++ nl ++ "Total: $45.67" ++ nl ++ "Paid by visa")%string.

Definition shadowed_total : pystr :=
  str ("Subtotal: $12.00" ++ nl ++ "Total: $45.67")%string.

Definition amount_then_total : pystr :=
  str ("Amount: 40.00" ++ nl ++ "Total: 50.00")%string.

Definition amount_then_totals : pystr :=
  str ("Amount: 40.00" ++ nl ++ "Subtotal: 0.00" ++ nl ++ "Total: 50.00")%string.

Definition uber_eats : pystr := str "Uber Eats food delivery".

End Sample.

(** ** Sample uploads *)

Module Upload.

Import Endpoint.

Definition listing : pystr := str "png, jpg, jpeg, gif, bmp, tiff, webp".

Definition png (rd : result (list Byte.byte)) : UploadFile :=
  {| filename := Some (str "receipt.png");
     content_type := Some (str "image/png");
     read := rd |}.

(** One byte more than the endpoint takes. *)
Definition too_many_bytes : list Byte.byte :=
  repeat Byte.x00 (N.to_nat 10485761).

Definition five_lines : pystr :=
  str ("Store 12" ++ Sample.nl ++ "b" ++ Sample.nl ++ "c" ++ Sample.nl
       ++ "d" ++ Sample.nl ++ "e")%string.

End Upload.

(** ** Specification vocabulary *)

Definition seven_keys : gset string :=
  {[ "employee"; "description"; "date"; "category"; "paid_by"; "remark";
     "amount" ]}.

(** What each of the seven calls of the dictionary display did, in the
    order the display evaluates them. *)
Definition outcomes (self : methods) (text : pystr) : list (result unit) :=
  [ (fun _ => ()) <$> extract_employee self text;
    (fun _ => ()) <$> extract_description self text;
    (fun _ => ()) <$> extract_date self text;
    (fun _ => ()) <$> extract_category self text;
    (fun _ => ()) <$> extract_payment_method self text;
    (fun _ => ()) <$> extract_remark self text;
    (fun _ => ()) <$> extract_amount self text ].

(** The exception of the first call that raised, if any did. *)
Fixpoint first_raise (l : list (result unit)) : option exn :=
  match l with
  | [] => None
  | Ok _ :: l' => first_raise l'
  | Raise e :: _ => Some e
  end.

(** The validity test of the recognised text. *)
Definition too_short (full_text : pystr) : bool :=
  Nat.eqb (length full_text) 0 || (length (strip full_text) <? 10)%nat.

(** A response is well formed when it has exactly the seven keys and its
    category and payment method are strings. *)
Definition well_formed (r : response) : Prop :=
  dom r = seven_keys
  ∧ (∃ c, r !! "category" = Some (Some c))
  ∧ (∃ p, r !! "paid_by" = Some (Some p)).

(** The matcher's vocabulary.  [mk] writes a position out; [passed b l]
    is the character behind the position once [l] has been passed. *)
Abbreviation mk b p rs g :=
  {| Re.before := b; Re.pos := p; Re.rest := rs; Re.groups := g |}.

Definition passed (b : option N) (l : pystr) : option N :=
  fold_left (fun _ x => Some x) l b.

(** [r] matched at [s] along its first choices ends at [s']: whenever
    what follows accepts [s'], that is the match found. *)
Definition reaches (fl : Re.flags) (r : Re.re) (s s' : Re.mstate) : Prop :=
  ∀ (k : Re.cont) (m : Re.mstate), k s' = Some m → Re.run fl r s k = Some m.

(** The string [s] begins with the characters of [l], compared the way
    the matcher compares a pattern character. *)
Fixpoint starts_with (fl : Re.flags) (l s : pystr) : bool :=
  match l, s with
  | [], _ => true
  | c :: l', x :: s' => Re.lit_match fl c x && starts_with fl l' s'
  | _ :: _, [] => false
  end.

(** What a match of an amount pattern stands for, and whether the loop
    of [_extract_amount] accepts it. *)
Definition amount_value (m : Re.rmatch) : pystr :=
  remove_char (Re.ch ",") (Re.group 1 m).

Definition valid_amount (v : pystr) : bool :=
  match Float64.float v with
  | Ok x => OCRService.in_range_amount x
  | Raise _ => false
  end.

(** The character after an amount neither extends its digits nor adds a
    full stop to it. *)
Definition ends_amount (post : pystr) : bool :=
  match post with
  | [] => true
  | c :: _ => negb (isdecimal c) && negb (c =? 46)
  end.

(** The date extractor's vocabulary: no format parses [s]; the first
    format that parses [s] yields [d]; a pattern's turn of the loop yields
    nothing (it has no match, or its leftmost match parses under no
    format). *)
Definition unparseable (formats : list pystr) (s : pystr) : Prop :=
  ∀ fmt, fmt ∈ formats → ∃ e, Strptime.strptime s fmt = Raise e.

Definition parses_as (formats : list pystr) (s d : pystr) : Prop :=
  ∃ (j : nat) (fmt : pystr) (dt : Strptime.date),
    formats !! j = Some fmt
    ∧ Strptime.strptime s fmt = Ok dt
    ∧ d = Strptime.strftime_ymd dt
    ∧ ∀ (j' : nat) (fmt' : pystr),
        (j' < j)%nat → formats !! j' = Some fmt' →
        ∃ e, Strptime.strptime s fmt' = Raise e.

Definition pass_fails (text : pystr) (pattern : Re.re) : Prop :=
  ∀ m, Re.search Re.I pattern text = Some m →
       unparseable OCRService.date_formats (Re.group 0 m).

(** The keywords of the Food row, the first of the category table. *)
Definition food_keywords : list string :=
  ["restaurant"; "cafe"; "coffee"; "food"; "dining"; "meal"; "breakfast";
   "lunch"; "dinner"; "pizza"; "burger"; "kitchen"; "grill"; "bistro"]%string.

(** PIL does what it documents: conversion and resampling succeed,
    conversion keeps the size and resampling gives the size asked for. *)
Definition pil_succeeds (rt : runtime) : Prop :=
  (∀ im m, ∃ im', convert rt im m = Ok im' ∧ size im' = size im)
  ∧ (∀ im sz, ∃ im', resize rt im sz = Ok im' ∧ size im' = sz).

(** [int(n * s)] for an [int] [n] and a [float] [s]. *)
Definition scaled (n : Z) (s : Float64.float64) : result Z :=
  x ← Float64.int_mul n s; Float64.to_int x.

(** [n / d] rounded to the nearest integer (halves upward). *)
Definition nearest (n d : Z) : Z := ((2 * n + d) / (2 * d))%Z.

(** The matcher, declaratively. *)

(** [n] successive steps of [R], each moving forward. *)
Fixpoint steps (R : Re.mstate → Re.mstate → Prop) (n : nat)
    (s s' : Re.mstate) : Prop :=
  match n with
  | O => s' = s
  | S n' => ∃ s1, R s s1 ∧ (Re.pos s < Re.pos s1)%nat ∧ steps R n' s1 s'
  end.

(** [r] can match from [s] to [s']. *)
Fixpoint spans (fl : Re.flags) (r : Re.re) (s s' : Re.mstate) : Prop :=
  match r with
  | Re.Eps => s' = s
  | Re.Lit c =>
      ∃ x xs, Re.rest s = x :: xs ∧ Re.lit_match fl c x = true
              ∧ s' = Re.advance x xs s
  | Re.Class negated items =>
      ∃ x xs, Re.rest s = x :: xs ∧ Re.class_match fl negated items x = true
              ∧ s' = Re.advance x xs s
  | Re.Seq r1 r2 => ∃ s1, spans fl r1 s s1 ∧ spans fl r2 s1 s'
  | Re.Alt r1 r2 => spans fl r1 s s' ∨ spans fl r2 s s'
  | Re.Rep lo hi r1 =>
      ∃ n, (lo ≤ n)%nat
           ∧ match hi with Some h => (n ≤ h)%nat | None => True end
           ∧ steps (spans fl r1) n s s'
  | Re.Group i r1 =>
      ∃ s1, spans fl r1 s s1
            ∧ s' = Re.set_group i (firstn (Re.pos s1 - Re.pos s) (Re.rest s)) s1
  | Re.WordB =>
      s' = s
      ∧ xorb (Re.word_opt (Re.before s)) (Re.word_opt (head (Re.rest s))) = true
  | Re.Bol => s' = s ∧ Re.at_bol fl s = true
  | Re.Eol => s' = s ∧ Re.at_eol fl s = true
  end.

(** The outcomes of the amount extractor: a pattern's leftmost match is
    accepted or not; a token is the largest of the two-decimal tokens. *)
Definition pass_accepts (text : pystr) (pattern : Re.re) (a : pystr) : Prop :=
  ∃ m, Re.search Re.IM pattern text = Some m
       ∧ a = amount_value m ∧ valid_amount a = true.

Definition pass_rejects (text : pystr) (pattern : Re.re) : Prop :=
  ∀ m, Re.search Re.IM pattern text = Some m →
       valid_amount (amount_value m) = false.

Definition largest_token (text a : pystr) : Prop :=
  In a (Re.findall Re.no_flags OCRService.money_token text)
  ∧ ∃ ka, Float64.float a = Ok ka
          ∧ ∀ y ky, In y (Re.findall Re.no_flags OCRService.money_token text) →
                    Float64.float y = Ok ky → Float64.ltb ka ky = false.

(** The labels the two keyword tables can give. *)
Definition category_labels : list pystr :=
  map str ["Food"; "Transportation"; "Accommodation"; "Office Supplies";
           "Entertainment"; "Medical"; "Utilities"; "Other"]%string.

Definition payment_labels : list pystr :=
  map str ["Credit Card"; "Debit Card"; "UPI"; "Cash"]%string.

(** The characters [_extract_description] lets through. *)
Definition description_char (x : N) : bool :=
  in_range 97 122 x || in_range 65 90 x || in_range 48 57 x || isspace x
  || (x =? 38) || (x =? 39) || (x =? 45).

(** The string does not begin with white space. *)
Definition no_leading_space (s : pystr) : Prop :=
  match s with
  | [] => True
  | x :: _ => isspace x = false
  end.

Definition has_remark_word (line : pystr) : bool :=
  OCRService.is_some (Re.search Re.I OCRService.remark_word line).



(** When PIL's conversion succeeds it keeps the size. *)
Definition conversion_keeps_size (rt : runtime) : Prop :=
  ∀ im m im', convert rt im m = Ok im' → size im' = size im.

(** [int(w * (1500 / w))] is 1500 or 1499. *)
Definition width_lands (w : Z) : bool :=
  match Float64.int_truediv 1500 w with
  | Ok s =>
      match scaled w s with
      | Ok v => (v =? 1500)%Z || (v =? 1499)%Z
      | Raise _ => false
      end
  | Raise _ => false
  end.

(** * Properties *)

(** ** The orchestrator *)

Section Orchestrator.

Import OCRService Strptime.

Variable rt : runtime.
Variable self : methods.

Lemma empty_response_well_formed (msg : pystr) :
  well_formed (_empty_response rt msg).
Proof.
  unfold well_formed, _empty_response, seven_keys.
  split; [| split].
  - rewrite !dom_insert_L, dom_empty_L. set_solver.
  - eexists. by simplify_map_eq.
  - eexists. by simplify_map_eq.
Qed.

Lemma assembled_well_formed (e d dt r a : option pystr) (c p : pystr) :
  well_formed
    (<["employee" := e]> (<["description" := d]> (<["date" := dt]>
     (<["category" := Some c]> (<["paid_by" := Some p]>
      (<["remark" := r]> (<["amount" := a]> (∅ : response)))))))).
Proof.
  unfold well_formed, seven_keys.
  split; [| split].
  - rewrite !dom_insert_L, dom_empty_L. set_solver.
  - eexists. by simplify_map_eq.
  - eexists. by simplify_map_eq.
Qed.

(** The handler turns every exception of the body into a response. *)
Lemma handler_catches (content : list Byte.byte) :
  extract_expense_details rt self content
  = match extract_body rt self content with
    | Ok r => Ok r
    | Raise e =>
        Ok (_empty_response rt (str "OCR processing failed: " ++ exn_message e))
    end.
Proof. unfold extract_expense_details, catch. by destruct extract_body. Qed.

(** The body, once the image is decoded and read. *)
Lemma body_after_recognition (content : list Byte.byte) (img : pil_image)
    (full_text : pystr) :
  Image_open rt content = Ok img →
  image_to_string rt (_preprocess_image rt img) = Ok full_text →
  extract_body rt self content
  = if too_short full_text then Ok (_empty_response rt no_text_message)
    else
      employee ← extract_employee self full_text;
      description ← extract_description self full_text;
      date ← extract_date self full_text;
      category ← extract_category self full_text;
      paid_by ← extract_payment_method self full_text;
      remark ← extract_remark self full_text;
      amount ← extract_amount self full_text;
      Ok (<["employee" := employee]> (<["description" := description]>
          (<["date" := date]> (<["category" := Some category]>
          (<["paid_by" := Some paid_by]> (<["remark" := remark]>
          (<["amount" := amount]> ∅))))))).
Proof.
  intros Hopen Hread. unfold extract_body.
  rewrite Hopen. cbn. rewrite Hread. reflexivity.
Qed.

Lemma body_well_formed (content : list Byte.byte) (r : response) :
  extract_body rt self content = Ok r → well_formed r.
Proof.
  unfold extract_body.
  destruct (Image_open rt content) as [img|]; cbn; [| discriminate].
  destruct (image_to_string rt _) as [full_text|]; cbn; [| discriminate].
  destruct (_ || _).
  { intros [= <-]. apply empty_response_well_formed. }
  destruct (extract_employee self full_text); cbn; [| discriminate].
  destruct (extract_description self full_text); cbn; [| discriminate].
  destruct (extract_date self full_text); cbn; [| discriminate].
  destruct (extract_category self full_text); cbn; [| discriminate].
  destruct (extract_payment_method self full_text); cbn; [| discriminate].
  destruct (extract_remark self full_text); cbn; [| discriminate].
  destruct (extract_amount self full_text); cbn; [| discriminate].
  intros [= <-]. apply assembled_well_formed.
Qed.

(** When a call of the display raises, the body raises what the first
    such call raised. *)
Lemma body_raises_first (content : list Byte.byte) (img : pil_image)
    (full_text : pystr) (e : exn) :
  Image_open rt content = Ok img →
  image_to_string rt (_preprocess_image rt img) = Ok full_text →
  too_short full_text = false →
  first_raise (outcomes self full_text) = Some e →
  extract_body rt self content = Raise e.
Proof.
  intros Hopen Hread Hlong.
  rewrite (body_after_recognition _ _ _ Hopen Hread), Hlong.
  unfold outcomes.
  destruct (extract_employee self full_text); cbn; [| congruence].
  destruct (extract_description self full_text); cbn; [| congruence].
  destruct (extract_date self full_text); cbn; [| congruence].
  destruct (extract_category self full_text); cbn; [| congruence].
  destruct (extract_payment_method self full_text); cbn; [| congruence].
  destruct (extract_remark self full_text); cbn; [| congruence].
  destruct (extract_amount self full_text); cbn; [| congruence].
  discriminate.
Qed.

(** C9.  Whatever the bytes, the capabilities and the extractors do,
    [extract_expense_details] returns (it does not raise), and what it
    returns is a mapping with exactly the keys employee, description,
    date, category, paid_by, remark and amount whose category and
    paid_by are not [None]. *)
Theorem extract_expense_details_total (content : list Byte.byte) :
  ∃ r, extract_expense_details rt self content = Ok r ∧ well_formed r.
Proof.
  rewrite handler_catches.
  destruct (extract_body rt self content) as [r|e] eqn:Hbody.
  - exists r. split; [reflexivity |]. by eapply body_well_formed.
  - eexists. split; [reflexivity |]. apply empty_response_well_formed.
Qed.

(** C1, as the code has it.  When the bytes cannot be decoded, the error
    of the decoder is caught by the handler of
    [extract_expense_details]: the call returns the empty response whose
    description is "OCR processing failed: " followed by the error's
    message.  No failure is surfaced as an error: the call returns a
    response on every input. *)
Theorem decode_failure_is_caught (content : list Byte.byte) (e : exn) :
  Image_open rt content = Raise e →
  extract_expense_details rt self content
  = Ok (_empty_response rt (str "OCR processing failed: " ++ exn_message e))
  ∧ ∀ other : list Byte.byte,
      ∃ r, extract_expense_details rt self other = Ok r.
Proof.
  intros Hopen. split.
  - rewrite handler_catches. unfold extract_body. by rewrite Hopen.
  - intros other. rewrite handler_catches.
    destruct (extract_body rt self other); eauto.
Qed.

(** C2, as the code has it.  The extractors are called one after the
    other inside the one [try] of [extract_expense_details]; there is no
    handler around a single extractor.  When one raises, the whole call
    returns the empty response carrying that error's message: the values
    the earlier extractors returned are dropped and the later ones are
    not called. *)
Theorem extractor_failure_empties_response (content : list Byte.byte)
    (img : pil_image) (full_text : pystr) (e : exn) :
  Image_open rt content = Ok img →
  image_to_string rt (_preprocess_image rt img) = Ok full_text →
  too_short full_text = false →
  first_raise (outcomes self full_text) = Some e →
  extract_expense_details rt self content
  = Ok (_empty_response rt (str "OCR processing failed: " ++ exn_message e)).
Proof.
  intros Hopen Hread Hlong Hraise.
  rewrite handler_catches.
  by rewrite (body_raises_first _ _ _ _ Hopen Hread Hlong Hraise).
Qed.

(** C4.  When the recognised text is empty or shorter than ten
    characters once stripped, the call returns the canonical empty
    response: category Other, paid_by Cash, the current date, no
    employee, remark or amount, and the "no text detected" message as
    description. *)
Theorem short_text_gives_empty_response (content : list Byte.byte)
    (img : pil_image) (full_text : pystr) :
  Image_open rt content = Ok img →
  image_to_string rt (_preprocess_image rt img) = Ok full_text →
  full_text = [] ∨ (length (strip full_text) < 10)%nat →
  ∃ r, extract_expense_details rt self content = Ok r
    ∧ dom r = seven_keys
    ∧ r !! "category" = Some (Some (str "Other"))
    ∧ r !! "paid_by" = Some (Some (str "Cash"))
    ∧ r !! "date" = Some (Some (strftime_ymd (now rt)))
    ∧ r !! "employee" = Some None
    ∧ r !! "remark" = Some None
    ∧ r !! "amount" = Some None
    ∧ r !! "description"
      = Some (Some (str "No text detected in image. Please ensure the receipt is clear and well-lit.")).
Proof.
  intros Hopen Hread Hshort.
  assert (Hts : too_short full_text = true).
  { unfold too_short. destruct Hshort as [-> | Hlen]; [reflexivity |].
    apply orb_true_iff. right. by apply Nat.ltb_lt. }
  exists (_empty_response rt no_text_message).
  rewrite handler_catches, (body_after_recognition _ _ _ Hopen Hread), Hts.
  split; [reflexivity |].
  split; [apply empty_response_well_formed |].
  unfold _empty_response, no_text_message.
  repeat split; by simplify_map_eq.
Qed.

End Orchestrator.

(** ** The matcher *)

Section Matcher.

Import Re.

Variable fl : flags.

Lemma run_seq (r1 r2 : re) (s : mstate) (k : cont) :
  run fl (Seq r1 r2) s k = run fl r1 s (λ s', run fl r2 s' k).
Proof. reflexivity. Qed.

Lemma reaches_eq (r : re) (s s1 s2 : mstate) :
  reaches fl r s s1 → s1 = s2 → reaches fl r s s2.
Proof. by intros H <-. Qed.

Lemma reaches_seq (r1 r2 : re) (s s1 s2 : mstate) :
  reaches fl r1 s s1 → reaches fl r2 s1 s2 → reaches fl (Seq r1 r2) s s2.
Proof.
  intros H1 H2 k m Hk. cbn [run].
  apply H1. by apply H2.
Qed.

Lemma reaches_group (i : nat) (r : re) (s s' : mstate) :
  reaches fl r s s' →
  reaches fl (Group i r) s
    (set_group i (firstn (pos s' - pos s) (rest s)) s').
Proof. intros H k m Hk. cbn [run]. by apply H. Qed.

Lemma reaches_lits (l : pystr) :
  ∀ (l' : pystr) (b : option N) (p : nat) (r : pystr) (g : list (nat * pystr)),
    Forall2 (λ c x, lit_match fl c x = true) l l' →
    reaches fl (lits l) (mk b p (l' ++ r) g)
      (mk (passed b l') (p + length l') r g).
Proof.
  induction l as [|c l IH]; intros l' b p r g Hall k m Hk.
  - inversion Hall; subst. cbn in *. by rewrite Nat.add_0_r in Hk.
  - inversion Hall as [|? x ? l'' Hcx Hrest]; subst.
    assert (Hstep : ∀ k', run fl (Lit c) (mk b p ((x :: l'') ++ r) g) k'
                          = k' (mk (Some x) (S p) (l'' ++ r) g)).
    { intros k'. cbn. by rewrite Hcx. }
    replace (p + length (x :: l''))%nat with (S p + length l'')%nat in Hk
      by (cbn; lia).
    change (passed b (x :: l'')) with (passed (Some x) l'') in Hk.
    destruct l as [|c' l].
    + inversion Hrest; subst. cbn [lits]. rewrite Hstep.
      cbn in Hk. by rewrite Nat.add_0_r in Hk.
    + change (lits (c :: c' :: l)) with (Seq (Lit c) (lits (c' :: l))).
      rewrite run_seq, Hstep. by apply IH.
Qed.

(** A pattern that starts with the literal [l] fails where the subject
    does not start with [l]. *)
Lemma lits_fail (l : pystr) :
  ∀ (s : mstate) (k : cont),
    starts_with fl l (rest s) = false → run fl (lits l) s k = None.
Proof.
  induction l as [|c l IH]; intros s k Hno; [discriminate |].
  destruct s as [b p rs g]. cbn in Hno.
  destruct rs as [|x rs].
  { destruct l; reflexivity. }
  destruct (lit_match fl c x) eqn:Hcx.
  - cbn in Hno. destruct l as [|c' l]; [discriminate |].
    change (lits (c :: c' :: l)) with (Seq (Lit c) (lits (c' :: l))).
    rewrite run_seq. cbn. rewrite Hcx. by apply IH.
  - destruct l; cbn; by rewrite Hcx.
Qed.

(** Greedy repetition of a pattern that takes one character: the repeat
    takes the run [l] when it may take that many and either may take no
    more or is stopped by the next character. *)
Lemma reaches_rep (r1 : re) (f : N → bool) (lo : nat) (hi : option nat) :
  (∀ (s : mstate) (k : cont),
     run fl r1 s k
     = match rest s with
       | x :: xs => if f x then k (advance x xs s) else None
       | [] => None
       end) →
  ∀ (l r : pystr) (b : option N) (p : nat) (g : list (nat * pystr)),
    Forall (λ x, f x = true) l →
    (lo ≤ length l)%nat →
    match hi with Some h => (length l ≤ h)%nat | None => True end →
    (hi = Some (length l)
     ∨ match r with [] => True | y :: _ => f y = false end) →
    reaches fl (Rep lo hi r1) (mk b p (l ++ r) g)
      (mk (passed b l) (p + length l) r g).
Proof.
  intros Hbody l r b p g Hall Hlo Hhi Hstop k m Hk.
  cbn [run rest].
  assert (Hgen : ∀ (l : pystr) (n : nat) (b : option N) (p : nat),
            Forall (λ x, f x = true) l →
            (lo ≤ n + length l)%nat →
            match hi with Some h => (n + length l ≤ h)%nat | None => True end →
            (hi = Some (n + length l)%nat
             ∨ match r with [] => True | y :: _ => f y = false end) →
            k (mk (passed b l) (p + length l) r g) = Some m →
            rep_iter (run fl r1) lo hi k (length (l ++ r)) n
              (mk b p (l ++ r) g) = Some m).
  { clear l b p Hall Hlo Hhi Hstop Hk. intros l. induction l as [|x l IH]; intros n b p Hall Hlo Hhi Hstop Hk.
    - cbn in *. rewrite !Nat.add_0_r in *.
      assert (Hleave : (if (lo <=? n)%nat then k (mk b p r g) else None) = Some m).
      { by destruct (Nat.leb_spec lo n); [| lia]. }
      destruct r as [|y r']; cbn [app length rep_iter]; [exact Hleave |].
      destruct Hstop as [-> | Hy].
      + unfold below. rewrite Nat.ltb_irrefl. exact Hleave.
      + destruct (below hi n); [| exact Hleave].
        rewrite Hbody. cbn [rest]. rewrite Hy. exact Hleave.
    - inversion Hall as [|? ? Hx Hl]; subst.
      cbn [length app rep_iter].
      assert (Hbelow : below hi n = true).
      { destruct hi as [h|]; [| reflexivity]. cbn in *.
        apply Nat.ltb_lt. lia. }
      rewrite Hbelow, Hbody. cbn [rest]. rewrite Hx. unfold advance. cbn [pos groups].
      replace (p <? S p)%nat with true by (symmetry; apply Nat.ltb_lt; lia).
      rewrite (IH (S n) (Some x) (S p)); try done.
      + cbn in Hlo. lia.
      + destruct hi; [| done]. cbn in Hhi. lia.
      + destruct Hstop as [-> | ?]; [left | by right].
        f_equal. cbn. lia.
      + replace (S p + length l)%nat with (p + length (x :: l))%nat
          by (cbn; lia). exact Hk. }
  apply Hgen; try done.
Qed.

Lemma match_at_reaches (r : re) (bf : option N) (p : nat) (rs : pystr)
    (s' : mstate) :
  reaches fl r (mk bf p rs []) s' →
  match_at fl r bf p rs
  = Some {| m_start := p; m_end := pos s';
            m_group0 := firstn (pos s' - p) rs; m_groups := groups s' |}.
Proof.
  intros H. unfold match_at.
  by rewrite (H Some s' eq_refl).
Qed.

(** [search] passes over the positions where the pattern does not match. *)
Lemma scan_skip (r : re) (pre : pystr) :
  ∀ (rs : pystr) (bf : option N) (p : nat),
    (∀ (i : nat) (b : option N) (q : nat),
       (i < length pre)%nat →
       match_at fl r b q (drop i (pre ++ rs)) = None) →
    scan fl r bf p (pre ++ rs)
    = scan fl r (passed bf pre) (p + length pre) rs.
Proof.
  induction pre as [|x pre IH]; intros rs bf p Hno.
  - cbn. by rewrite Nat.add_0_r.
  - cbn [app scan].
    pose proof (Hno 0%nat bf p ltac:(cbn; lia)) as H0.
    cbn [drop app] in H0. rewrite H0.
    rewrite IH.
    + cbn. f_equal. lia.
    + intros i b q Hi. apply (Hno (S i) b q). cbn. lia.
Qed.

End Matcher.

(** ** The amount extractor *)

Section Amount.

Import Re Float64 OCRService.

Lemma class_body (fl : flags) (neg : bool) (items : list item) (s : mstate) (k : cont) :
  run fl (Class neg items) s k
  = match rest s with
    | x :: xs => if class_match fl neg items x then k (advance x xs s) else None
    | [] => None
    end.
Proof. reflexivity. Qed.

Lemma lit_body (fl : flags) (c : N) (s : mstate) (k : cont) :
  run fl (Lit c) s k
  = match rest s with
    | x :: xs => if lit_match fl c x then k (advance x xs s) else None
    | [] => None
    end.
Proof. reflexivity. Qed.

Lemma lit_match_stop (c : N) : c ≠ 46 → lit_match IM 46 c = false.
Proof.
  intros H. unfold lit_match, sre_lower, isupper_ascii, in_range. cbn.
  destruct (N.leb_spec 65 c); destruct (N.leb_spec c 90);
  destruct (N.eqb_spec c 304); destruct (N.eqb_spec c 8490); cbn;
  repeat match goal with |- context [N.eqb ?a ?b] => destruct (N.eqb_spec a b); cbn end;
  try reflexivity; lia.
Qed.

Ltac rep_side :=
  first [ by repeat constructor | by (cbn; lia) | done ].

Lemma number_here (b : option N) (p : nat) (post : pystr) (g : list (nat * pystr)) :
  ends_amount post = true →
  reaches IM number_token (mk b p (str "45.67" ++ post) g)
    (mk (Some 55) (p + 5) post ((1%nat, str "45.67") :: List.filter (λ q, negb (Nat.eqb (fst q) 1)) g)).
Proof.
  intros Hpost.
  assert (Hd : match post with [] => True | y :: _ => isdecimal y = false end).
  { destruct post as [|y ?]; [done |]. cbn in Hpost.
    apply andb_true_iff in Hpost as [H _]. by apply negb_true_iff in H. }
  assert (Hdot : match post with [] => True | y :: _ => lit_match IM 46 y = false end).
  { destruct post as [|y ?]; [done |]. cbn in Hpost.
    apply andb_true_iff in Hpost as [_ H]. apply negb_true_iff in H.
    apply lit_match_stop. by apply N.eqb_neq. }
  unfold number_token.
  eapply reaches_eq.
  - apply reaches_group. cbn [seqs].
    eapply reaches_seq.
    { apply (reaches_rep IM digit _ 1 None (class_body IM false [IDigit])
               (str "45") (str ".67" ++ post)); [rep_side .. |].
      by right. }
    eapply reaches_seq.
    { apply (reaches_rep IM _ _ 0 (Some 1%nat) (class_body IM false _)
               (str ".") (str "67" ++ post)); [rep_side .. |].
      by left. }
    eapply reaches_seq.
    { apply (reaches_rep IM digit _ 0 None (class_body IM false [IDigit])
               (str "67") post); [rep_side .. |].
      right. destruct post; [done |]. unfold class_match. cbn. by rewrite Hd. }
    eapply reaches_seq.
    { apply (reaches_rep IM _ _ 0 (Some 1%nat) (lit_body IM 46) [] post);
        [rep_side .. |].
      right. destruct post; done. }
    apply (reaches_rep IM digit _ 0 None (class_body IM false [IDigit]) [] post);
      [rep_side .. |].
    right. destruct post; [done |]. unfold class_match. cbn. by rewrite Hd.
  - unfold set_group. cbn [pos rest groups before passed fold_left length str].
    f_equal.
    + lia.
    + f_equal. f_equal.
      replace (p + 2 + 1 + 2 + 0 + 0 - p)%nat with 5%nat by lia. reflexivity.
Qed.

Lemma total_here (bf : option N) (p : nat) (post : pystr) :
  ends_amount post = true →
  reaches IM total_pattern (mk bf p (str "Total: $45.67" ++ post) [])
    (mk (Some 55) (p + 13) post [(1%nat, str "45.67")]).
Proof.
  intros Hpost. unfold total_pattern, labelled. cbn [seqs].
  eapply reaches_eq.
  - eapply reaches_seq.
    { apply (reaches_lits IM (str "total") (str "Total") bf p
               (str ": $45.67" ++ post) []).
      repeat constructor. }
    eapply reaches_seq.
    { apply (reaches_rep IM _ _ 0 None (class_body IM false _)
               (str ": ") (str "$45.67" ++ post)); [rep_side .. |].
      by right. }
    eapply reaches_seq.
    { apply (reaches_rep IM _ _ 0 (Some 1%nat) (class_body IM false _)
               (str "$") (str "45.67" ++ post)); [rep_side .. |].
      by left. }
    eapply reaches_seq.
    { apply (reaches_rep IM _ _ 0 None (class_body IM false _)
               [] (str "45.67" ++ post)); [rep_side .. |].
      by right. }
    by apply number_here.
  - cbn [passed fold_left length str filter]. f_equal. lia.
Qed.

Lemma total_needs_label (bf : option N) (p : nat) (rs : pystr) :
  starts_with IM (str "total") rs = false →
  match_at IM total_pattern bf p rs = None.
Proof.
  intros Hno. unfold match_at, total_pattern, labelled. cbn [seqs].
  rewrite run_seq. by rewrite lits_fail.
Qed.

Lemma scan_here (fl : flags) (r : re) (bf : option N) (p : nat) (rs : pystr)
    (m : rmatch) :
  match_at fl r bf p rs = Some m → scan fl r bf p rs = Some m.
Proof. intros H. destruct rs; cbn [scan]; by rewrite H. Qed.

Lemma float_raises_value_error (s : pystr) (e : exn) :
  float s = Raise e → is_value_error e = true.
Proof.
  unfold float. intros H.
  repeat (match type of H with
          | context [match ?x with _ => _ end] => destruct x
          end; try discriminate);
  by injection H as <-.
Qed.

Lemma amount_pass_spec (text : pystr) (pattern : re) :
  amount_pass text pattern
  = Ok (match search IM pattern text with
        | Some m =>
            if valid_amount (amount_value m) then Some (amount_value m)
            else None
        | None => None
        end).
Proof.
  unfold amount_pass, valid_amount, amount_value.
  destruct (search IM pattern text) as [m|]; [| reflexivity].
  destruct (float _) as [x|e] eqn:Hf; cbn.
  - by destruct (in_range_amount x).
  - by rewrite (float_raises_value_error _ _ Hf).
Qed.

(** C6, as the code has it.  When the text contains "Total: $45.67", no
    "total" (in any case) starts before that occurrence, and what follows
    it does not begin with a digit or a full stop, the amount extractor
    returns "45.67". *)
Theorem total_4567 (pre post : pystr) :
  (∀ i : nat, (i < length pre)%nat →
     starts_with IM (str "total") (drop i (pre ++ str "Total: $45.67" ++ post))
     = false) →
  ends_amount post = true →
  _extract_amount (pre ++ str "Total: $45.67" ++ post) = Ok (Some (str "45.67")).
Proof.
  intros Hpre Hpost.
  assert (Hsearch : search IM total_pattern (pre ++ str "Total: $45.67" ++ post)
          = Some {| m_start := 0 + length pre; m_end := 0 + length pre + 13;
                    m_group0 := firstn (0 + length pre + 13 - (0 + length pre))
                                  (str "Total: $45.67" ++ post);
                    m_groups := [(1%nat, str "45.67")] |}).
  { unfold search. rewrite scan_skip.
    - apply scan_here. by rewrite (match_at_reaches _ _ _ _ _ _ (total_here _ _ _ Hpost)).
    - intros i b q Hi. apply total_needs_label. by apply Hpre. }
  unfold _extract_amount, amount_patterns. cbn [amount_loop].
  rewrite (amount_pass_spec _ total_pattern), Hsearch. reflexivity.
Qed.

Lemma amount_loop_first (patterns : list re) :
  ∀ (text : pystr) (i : nat) (pattern : re) (m : rmatch),
    patterns !! i = Some pattern →
    search IM pattern text = Some m →
    valid_amount (amount_value m) = true →
    (∀ (j : nat) (q : re) (m' : rmatch),
       (j < i)%nat → patterns !! j = Some q → search IM q text = Some m' →
       valid_amount (amount_value m') = false) →
    amount_loop patterns text = Ok (Some (amount_value m)).
Proof.
  induction patterns as [|q patterns IH]; intros text i pattern m Hi Hs Hv Hbefore.
  - by rewrite lookup_nil in Hi.
  - cbn [amount_loop]. rewrite amount_pass_spec.
    destruct i as [|i].
    + injection Hi as ->. by rewrite Hs, Hv.
    + assert (Hskip : match search IM q text with
                      | Some m' => if valid_amount (amount_value m')
                                   then Some (amount_value m') else None
                      | None => None
                      end = None).
      { destruct (search IM q text) as [m'|] eqn:Hq; [| reflexivity].
        by rewrite (Hbefore 0%nat q m' ltac:(lia) eq_refl Hq). }
      rewrite Hskip. cbn.
      apply (IH text i pattern m Hi Hs Hv).
      intros j q' m' Hj Hq' Hs'. apply (Hbefore (S j) q' m'); [lia | done | done].
Qed.

(** C10, as the code has it.  The patterns total, amount, grand total,
    balance and bare currency symbol are tried in that order, each on the
    whole text and each through its leftmost match only: the extractor
    returns the value of the first pattern whose leftmost match is a
    valid amount.  So when the leftmost "total"-labelled value is valid
    it is returned, wherever an "amount"-labelled value stands; a valid
    "total"-labelled value behind an invalid one is not looked at. *)
Theorem amount_passes_in_order (text : pystr) (i : nat) (pattern : re)
    (m : rmatch) :
  amount_patterns !! i = Some pattern →
  search IM pattern text = Some m →
  valid_amount (amount_value m) = true →
  (∀ (j : nat) (q : re) (m' : rmatch),
     (j < i)%nat → amount_patterns !! j = Some q →
     search IM q text = Some m' →
     valid_amount (amount_value m') = false) →
  _extract_amount text = Ok (Some (amount_value m)).
Proof. apply amount_loop_first. Qed.

End Amount.

(** ** The date extractor *)

Section Date.

Import Re Strptime OCRService.

Lemma field_raises (g : nat) (m : rmatch) (d : Z) (e : exn) :
  field g m d = Raise e → is_value_error e = true.
Proof.
  unfold field. destruct (has_group g m); [| discriminate].
  destruct (int_of _); [discriminate |]. by intros [= <-].
Qed.

Lemma month_field_raises (m : rmatch) (e : exn) :
  month_field m = Raise e → is_value_error e = true.
Proof.
  unfold month_field.
  destruct (has_group g_B m).
  { destruct (index_of _ _ _); [discriminate |]. by intros [= <-]. }
  destruct (has_group g_b m).
  { destruct (index_of _ _ _); [discriminate |]. by intros [= <-]. }
  apply field_raises.
Qed.

Lemma make_date_raises (y m d : Z) (e : exn) :
  make_date y m d = Raise e → is_value_error e = true.
Proof. unfold make_date. destruct (_ && _); [discriminate |]. by intros [= <-]. Qed.

Lemma strptime_raises_value_error (s format : pystr) (e : exn) :
  strptime s format = Raise e → is_value_error e = true.
Proof.
  unfold strptime.
  destruct (pattern false format) as [rs|]; [| by intros [= <-]].
  destruct (match_ I (seqs rs) s) as [found|]; [| by intros [= <-]].
  destruct (negb _); [by intros [= <-] |].
  destruct (field g_Y found 1900) as [y|e1] eqn:Hy; cbn.
  2: { intros [= <-]. by eapply field_raises. }
  destruct (month_field found) as [mo|e2] eqn:Hm; cbn.
  2: { intros [= <-]. by eapply month_field_raises. }
  destruct (field g_d found 1) as [d|e3] eqn:Hd; cbn.
  2: { intros [= <-]. by eapply field_raises. }
  apply make_date_raises.
Qed.

Lemma parse_formats_cases (s : pystr) (formats : list pystr) :
  (parse_formats s formats = Ok None ∧ unparseable formats s)
  ∨ ∃ d, parse_formats s formats = Ok (Some d) ∧ parses_as formats s d.
Proof.
  induction formats as [|fmt formats IH].
  - left. split; [reflexivity |]. intros fmt Hin. by apply elem_of_nil in Hin.
  - cbn [parse_formats]. destruct (strptime s fmt) as [dt|e] eqn:Hp; cbn.
    + right. exists (strftime_ymd dt). split; [reflexivity |].
      exists 0%nat, fmt, dt. repeat split; try done. intros j' ? Hj'. lia.
    + rewrite (strptime_raises_value_error _ _ _ Hp).
      destruct IH as [[Hnone Hun] | (d & Hsome & j & fmt' & dt & Hj & Hok & Hd & Hbefore)].
      * left. split; [done |]. intros f Hin.
        apply elem_of_cons in Hin as [-> | Hin]; eauto.
      * right. exists d. split; [done |].
        exists (S j), fmt', dt. repeat split; try done.
        intros j' f Hj' Hf. destruct j' as [|j']; cbn in Hf.
        -- injection Hf as <-. eauto.
        -- apply (Hbefore j' f); [lia | done].
Qed.

Lemma date_pass_cases (text : pystr) (pattern : re) :
  (date_pass text pattern = Ok None ∧ pass_fails text pattern)
  ∨ ∃ m d, search I pattern text = Some m
           ∧ date_pass text pattern = Ok (Some d)
           ∧ parses_as date_formats (group 0 m) d.
Proof.
  unfold date_pass, pass_fails.
  destruct (search I pattern text) as [m|].
  - destruct (parse_formats_cases (group 0 m) date_formats) as [[Hn Hu] | (d & Hs & Hp)].
    + left. split; [done |]. by intros ? [= <-].
    + right. by exists m, d.
  - left. split; [done |]. discriminate.
Qed.

Lemma date_loop_cases (rt : runtime) (text : pystr) (patterns : list re) :
  ∃ d, date_loop rt patterns text = Ok (Some d)
    ∧ ((∃ (i : nat) (pattern : re) (m : rmatch),
          patterns !! i = Some pattern
          ∧ search I pattern text = Some m
          ∧ parses_as date_formats (group 0 m) d
          ∧ ∀ (i' : nat) (p' : re),
              (i' < i)%nat → patterns !! i' = Some p' → pass_fails text p')
       ∨ (d = strftime_ymd (now rt)
          ∧ ∀ p, p ∈ patterns → pass_fails text p)).
Proof.
  induction patterns as [|pattern patterns IH].
  - eexists. split; [reflexivity |]. right. split; [done |].
    intros p Hin. by apply elem_of_nil in Hin.
  - cbn [date_loop].
    destruct (date_pass_cases text pattern) as [[Hn Hf] | (m & d & Hs & Hp & Hpa)].
    + rewrite Hn. cbn.
      destruct IH as (d & Hd & [(i & p & m & Hi & Hs & Hpa & Hbefore) | [Htoday Hall]]).
      * exists d. split; [done |]. left.
        exists (S i), p, m. repeat split; try done.
        intros i' p' Hi' Hp'. destruct i' as [|i']; cbn in Hp'.
        -- by injection Hp' as <-.
        -- apply (Hbefore i' p'); [lia | done].
      * exists d. split; [done |]. right. split; [done |].
        intros p Hin. apply elem_of_cons in Hin as [-> | Hin]; eauto.
    + rewrite Hp. cbn. exists d. split; [done |]. left.
      exists 0%nat, pattern, m. repeat split; try done. intros ? ? ?. lia.
Qed.

(** C5, as the code has it.  The date extractor never returns [None]
    and never raises.  It goes through the three patterns in order and
    hands the leftmost match of each to the seven formats in order: the
    result is the first parse, by the first format that parses, of the
    first pattern whose leftmost match parses at all, as YYYY-MM-DD.  A
    pattern whose leftmost match parses under no format does not end the
    search: the next pattern is tried.  Only when no pattern yields a
    parse is the result the current date. *)
Theorem date_from_first_parsing_pattern (rt : runtime) (text : pystr) :
  ∃ d, _extract_date rt text = Ok (Some d)
    ∧ ((∃ (i : nat) (pattern : re) (m : rmatch),
          date_patterns !! i = Some pattern
          ∧ search I pattern text = Some m
          ∧ parses_as date_formats (group 0 m) d
          ∧ ∀ (i' : nat) (p' : re),
              (i' < i)%nat → date_patterns !! i' = Some p' → pass_fails text p')
       ∨ (d = strftime_ymd (now rt)
          ∧ ∀ p, p ∈ date_patterns → pass_fails text p)).
Proof. apply date_loop_cases. Qed.

End Date.

(** ** The category extractor *)

Section Category.

Import OCRService.

Lemma any_keyword_none (keywords : list string) (text_lower : pystr) :
  Forall (λ kw, contains (str kw) text_lower = false) keywords →
  any_keyword keywords text_lower = false.
Proof.
  unfold any_keyword. induction 1 as [|kw kws Hkw _ IH]; [reflexivity |].
  cbn. by rewrite Hkw, IH.
Qed.

Lemma any_keyword_one (kw : string) (keywords : list string)
    (text_lower : pystr) :
  In kw keywords → contains (str kw) text_lower = true →
  any_keyword keywords text_lower = true.
Proof.
  intros Hin Hkw. unfold any_keyword. apply existsb_exists. eauto.
Qed.

(** C7, as the code has it.  The table is read in order and Food comes
    before Transportation: a text that contains "uber" in any case and
    none of the Food keywords is classified Transportation. *)
Theorem uber_without_food_is_transportation (text : pystr) :
  contains (str "uber") (lower text) = true →
  Forall (λ kw, contains (str kw) (lower text) = false) food_keywords →
  _extract_category text = str "Transportation".
Proof.
  intros Huber Hfood. unfold food_keywords in Hfood.
  unfold _extract_category, categories. cbn [first_label].
  rewrite (any_keyword_none _ _ Hfood).
  rewrite (any_keyword_one "uber"); [reflexivity | | exact Huber].
  cbn. tauto.
Qed.

End Category.

(** ** Binary64 arithmetic stays finite on image sizes *)

Section Floats.

Import Float64.
Local Open Scope Z_scope.

Lemma pow2_pos (k : Z) : 0 < pow2 k.
Proof. unfold pow2. apply Z.pow_pos_nonneg; lia. Qed.

Lemma pow2_nonneg (k : Z) : 0 ≤ k → pow2 k = 2 ^ k.
Proof. intros H. unfold pow2. f_equal. lia. Qed.

Lemma pow2_nonpos (k : Z) : k ≤ 0 → pow2 k = 1.
Proof. intros H. unfold pow2. replace (Z.max 0 k) with 0 by lia. reflexivity. Qed.

Lemma pow2_balance (e1 e2 : Z) :
  pow2 e1 * pow2 e2 * pow2 (- (e1 + e2))
  = pow2 (- e1) * pow2 (- e2) * pow2 (e1 + e2).
Proof.
  unfold pow2. rewrite <- !Z.pow_add_r by lia. f_equal. lia.
Qed.

Lemma ilog2_ratio_le (n d : Z) : ilog2_ratio n d ≤ Z.log2 n - Z.log2 d.
Proof. unfold ilog2_ratio. destruct (_ <=? _); lia. Qed.

Lemma round64_finite (n d : Z) :
  Z.log2 n - Z.log2 d ≤ 1022 → ∃ m e, round64 n d = Finite m e.
Proof.
  intros Hlog. unfold round64.
  destruct (n =? 0); [eauto |].
  pose proof (ilog2_ratio_le n d) as Hk.
  set (e := Z.max (ilog2_ratio n d - 52) (-1074)).
  assert (He : e ≤ 970) by lia.
  cbv zeta.
  match goal with |- context [if ?c =? 2 ^ 53 then _ else _] => destruct (c =? 2 ^ 53) end.
  - destruct (Z.ltb_spec 971 (e + 1)); [lia | eauto].
  - destruct (Z.ltb_spec 971 e); [lia | eauto].
Qed.

(** The value [m * 2^e] of a rounded quotient is at most twice the quotient. *)
Lemma round64_value_le (n d m e : Z) :
  0 ≤ n → 0 < d → round64 n d = Finite m e →
  0 ≤ m ∧ m * d * pow2 e ≤ 2 * n * pow2 (- e).
Proof.
  intros Hn Hd. unfold round64.
  destruct (Z.eqb_spec n 0) as [-> | Hn0].
  { intros [= <- <-]. lia. }
  set (e0 := Z.max (ilog2_ratio n d - 52) (-1074)).
  set (num := n * pow2 (- e0)). set (den := d * pow2 e0).
  pose proof (pow2_pos e0) as Hp. pose proof (pow2_pos (- e0)) as Hp'.
  assert (Hden : 0 < den) by (unfold den; nia).
  assert (Hnum : 0 ≤ num) by (unfold num; nia).
  pose proof (Z.div_mod num den ltac:(lia)) as Hdm.
  pose proof (Z.mod_pos_bound num den Hden) as Hr.
  pose proof (Z.div_pos num den Hnum Hden) as Hq.
  set (q := num / den) in *. set (r := num mod den) in *.
  cbv zeta.
  set (m0 := if 2 * r <? den then q else if den <? 2 * r then q + 1
             else if Z.even q then q else q + 1).
  assert (Hm0 : 0 ≤ m0 ∧ m0 * den ≤ 2 * num).
  { unfold m0. destruct (Z.ltb_spec (2 * r) den); [nia |].
    destruct (Z.ltb_spec den (2 * r)); [nia |].
    destruct (Z.even q); nia. }
  destruct (Z.eqb_spec m0 (2 ^ 53)) as [Hbig | _].
  - destruct (971 <? e0 + 1); [discriminate |]. intros [= <- <-].
    split; [lia |].
    rewrite Hbig in Hm0. destruct Hm0 as [_ Hm0].
    replace (2 ^ 53) with (2 * 2 ^ 52) in Hm0 by reflexivity.
    unfold den, num in Hm0. generalize dependent (2 ^ 52). intros P HP.
    destruct (Z.le_gt_cases 0 e0) as [Hpos | Hneg].
    + rewrite (pow2_nonneg (e0 + 1)), (pow2_nonpos (- (e0 + 1))) by lia.
      rewrite Z.pow_add_r by lia.
      rewrite (pow2_nonneg e0), (pow2_nonpos (- e0)) in HP by lia.
      nia.
    + rewrite (pow2_nonpos (e0 + 1)), (pow2_nonneg (- (e0 + 1))) by lia.
      rewrite (pow2_nonpos e0), (pow2_nonneg (- e0)) in HP by lia.
      replace (- e0) with (- (e0 + 1) + 1) in HP by lia.
      rewrite Z.pow_add_r in HP by lia.
      nia.
  - destruct (971 <? e0); [discriminate |]. intros [= <- <-].
    unfold den, num in Hm0. split; [lia |]. nia.
Qed.


Lemma log2_ratio_small (n d K : Z) :
  0 ≤ n → 0 < d → 0 ≤ K → n < 2 ^ K → Z.log2 n - Z.log2 d ≤ K.
Proof.
  intros Hn Hd HK Hlt.
  pose proof (Z.log2_nonneg d).
  destruct (Z.eq_dec n 0) as [-> | Hn0]; [cbn; lia |].
  pose proof (proj1 (Z.log2_lt_pow2 n K ltac:(lia)) Hlt). lia.
Qed.

Lemma of_int_ok (i : Z) :
  0 ≤ i < 2 ^ 1022 →
  ∃ m e, of_int i = Ok (Finite m e)
         ∧ 0 ≤ m ∧ m * pow2 e ≤ 2 * i * pow2 (- e).
Proof.
  intros Hi. unfold of_int.
  destruct (round64_finite i 1) as (m & e & Hr).
  { apply log2_ratio_small; lia. }
  rewrite Hr. exists m, e. split; [reflexivity |].
  destruct (round64_value_le i 1 m e ltac:(lia) ltac:(lia) Hr). lia.
Qed.

Lemma int_truediv_ok (a b : Z) :
  0 ≤ a < 2 ^ 1022 → 0 < b →
  ∃ m e, int_truediv a b = Ok (Finite m e)
         ∧ 0 ≤ m ∧ m * pow2 e ≤ 2 * a * pow2 (- e).
Proof.
  intros Ha Hb. unfold int_truediv.
  destruct (Z.eqb_spec b 0); [lia |].
  destruct (round64_finite a b) as (m & e & Hr).
  { apply log2_ratio_small; lia. }
  rewrite Hr. exists m, e. split; [reflexivity |].
  destruct (round64_value_le a b m e ltac:(lia) ltac:(lia) Hr) as [Hm Hv].
  split; [done |].
  pose proof (pow2_pos e). pose proof (pow2_pos (- e)). nia.
Qed.

Lemma mul_finite (m1 e1 m2 e2 A B : Z) :
  0 ≤ m1 → 0 ≤ m2 →
  m1 * pow2 e1 ≤ A * pow2 (- e1) →
  m2 * pow2 e2 ≤ B * pow2 (- e2) →
  0 ≤ A → 0 ≤ B → A * B < 2 ^ 1022 →
  ∃ m e, mul (Finite m1 e1) (Finite m2 e2) = Finite m e.
Proof.
  intros Hm1 Hm2 H1 H2 HA HB HAB. cbn [mul].
  set (E := e1 + e2).
  apply round64_finite.
  pose proof (pow2_pos e1). pose proof (pow2_pos e2).
  pose proof (pow2_pos (- e1)). pose proof (pow2_pos (- e2)).
  pose proof (pow2_pos E). pose proof (pow2_pos (- E)).
  pose proof (pow2_balance e1 e2) as Hbal. fold E in Hbal.
  assert (Hle : m1 * m2 * pow2 E ≤ A * B * pow2 (- E)).
  { apply (Z.mul_le_mono_pos_r _ _ (pow2 (- e1) * pow2 (- e2))); [nia |].
    assert (Hprod : m1 * m2 * (pow2 e1 * pow2 e2)
                    ≤ A * B * (pow2 (- e1) * pow2 (- e2))) by nia.
    transitivity (m1 * m2 * (pow2 e1 * pow2 e2) * pow2 (- E)).
    - apply Z.eq_le_incl.
      transitivity (m1 * m2 * (pow2 (- e1) * pow2 (- e2) * pow2 E)); [ring |].
      rewrite <- Hbal. ring.
    - transitivity (A * B * (pow2 (- e1) * pow2 (- e2)) * pow2 (- E)).
      + apply Z.mul_le_mono_nonneg_r; lia.
      + apply Z.eq_le_incl. ring. }
  unfold pow2 at 2. rewrite Z.log2_pow2 by lia.
  set (j := Z.max 0 (- E)).
  assert (m1 * m2 * pow2 E < 2 ^ (1022 + j)).
  { rewrite Z.pow_add_r by lia. unfold pow2 in Hle at 2. fold j in Hle.
    pose proof (Z.pow_pos_nonneg 2 j ltac:(lia) ltac:(lia)). nia. }
  enough (Z.log2 (m1 * m2 * pow2 E) - Z.log2 1 ≤ 1022 + j) by (cbn in *; lia).
  apply log2_ratio_small; lia || nia.
Qed.

Lemma scaled_ok (n m e B : Z) :
  0 ≤ n < 2 ^ 32 → 0 ≤ m → m * pow2 e ≤ B * pow2 (- e) → 0 ≤ B < 2 ^ 32 →
  ∃ v, scaled n (Finite m e) = Ok v.
Proof.
  intros Hn Hm Hs HB. unfold scaled, int_mul.
  destruct (of_int_ok n) as (m1 & e1 & -> & Hm1 & Hv1).
  { split; [lia |]. apply Z.lt_trans with (2 ^ 32); [lia | reflexivity]. }
  cbn -[mul].
  destruct (mul_finite m1 e1 m e (2 * n) B) as (m' & e' & ->); try lia.
  { apply Z.lt_trans with (2 ^ 33 * 2 ^ 32); [nia | reflexivity]. }
  cbn. eauto.
Qed.

End Floats.


(** ** The image normaliser *)

Section Image.

Import Float64 OCRService.
Local Open Scope Z_scope.

(** C8, as the code has it.  For a decoded image of width [w] below 1000
    the normaliser computes the scale factor [s = 1500 / w] in double
    precision and resizes to [(int(w * s), int(h * s))], both products in
    double precision and both truncated toward zero: the height is cut
    down to an integer, not rounded to the nearest one.  An image of
    width 1000 or more keeps its dimensions. *)
Theorem upscale_truncates (rt : runtime) (img : pil_image) (w h : Z) :
  pil_succeeds rt → size img = (w, h) → 0 < w → 0 < h < 2 ^ 31 →
  (w < 1000 →
     ∃ s nw nh, int_truediv 1500 w = Ok s
                ∧ scaled w s = Ok nw ∧ scaled h s = Ok nh
                ∧ size (_preprocess_image rt img) = (nw, nh))
  ∧ (1000 ≤ w → size (_preprocess_image rt img) = (w, h)).
Proof.
  intros [Hconv Hres] Hsize Hw Hh.
  unfold _preprocess_image.
  assert (H1 : ∃ im1, (if negb (String.eqb (mode img) "RGB")
                       then convert rt img "RGB" else Ok img) = Ok im1
                      ∧ size im1 = (w, h)).
  { destruct (negb _).
    - destruct (Hconv img "RGB"%string) as (im1 & -> & Hs). exists im1. by rewrite Hs.
    - by exists img. }
  destruct H1 as (im1 & -> & Hs1).
  destruct (Hconv im1 "L"%string) as (im2 & -> & Hs2).
  rewrite Hs2, Hs1.
  split.
  - intros Hlt. destruct (Z.ltb_spec w 1000); [| lia].
    destruct (int_truediv_ok 1500 w) as (m & e & Hs & Hm & Hv); [done | lia |].
    assert (Hpw : 2 ^ 31 < 2 ^ 32) by reflexivity.
    destruct (scaled_ok w m e 3000) as [nw Hnw]; try lia.
    destruct (scaled_ok h m e 3000) as [nh Hnh]; try lia.
    exists (Finite m e), nw, nh. repeat split; try done.
    rewrite Hs. cbn.
    unfold scaled in Hnw, Hnh.
    destruct (int_mul w (Finite m e)) as [xw|]; [| discriminate]. cbn in Hnw |- *.
    rewrite Hnw. cbn.
    destruct (int_mul h (Finite m e)) as [xh|]; [| discriminate]. cbn in Hnh |- *.
    rewrite Hnh. cbn.
    destruct (Hres im2 (nw, nh)) as (im3 & -> & Hs3). done.
  - intros Hge. destruct (Z.ltb_spec w 1000); [lia | by rewrite Hs2].
Qed.
End Image.

(** ** The service on sample inputs *)

Section Samples.

Import Re Float64 Strptime OCRService.

(** C1, as stated, fails: with a decoder that rejects the bytes the call
    does not raise, it returns a response. *)
Lemma decode_failure_not_raised :
  Image_open Sample.undecodable []
  = Raise {| exn_type := OSError;
             exn_message := str "cannot identify image file" |}
  ∧ ¬ ∃ e, extract_expense_details Sample.undecodable
             (self Sample.undecodable) [] = Raise e.
Proof. split; [reflexivity |]. intros [e He]. vm_compute in He. discriminate. Qed.

Lemma decode_failure_is_caught_witness :
  extract_expense_details Sample.undecodable (self Sample.undecodable) []
  = Ok (_empty_response Sample.undecodable
          (str "OCR processing failed: cannot identify image file"))
  ∧ ∀ other : list Byte.byte,
      ∃ r, extract_expense_details Sample.undecodable
             (self Sample.undecodable) other = Ok r.
Proof.
  apply (decode_failure_is_caught Sample.undecodable (self Sample.undecodable) []
           {| exn_type := OSError;
              exn_message := str "cannot identify image file" |}).
  reflexivity.
Defined.

(** C2, as stated, fails: with an amount extractor that raises, the
    category extractor does return Transportation on the Uber receipt,
    and yet the call returns the empty response, whose category is
    Other and whose description is the error. *)
Lemma extractor_failure_drops_other_fields :
  let rt := Sample.reads Sample.uber_receipt in
  let self := Sample.amount_raises rt in
  extract_amount self Sample.uber_receipt
  = Raise {| exn_type := RuntimeError; exn_message := str "boom" |}
  ∧ extract_category self Sample.uber_receipt = Ok (str "Transportation")
  ∧ extract_payment_method self Sample.uber_receipt = Ok (str "Credit Card")
  ∧ ∃ r, extract_expense_details rt self [] = Ok r
       ∧ r !! "category" = Some (Some (str "Other"))
       ∧ r !! "paid_by" = Some (Some (str "Cash"))
       ∧ r !! "description" = Some (Some (str "OCR processing failed: boom")).
Proof.
  cbv zeta. split; [reflexivity |]. split; [vm_compute; reflexivity |].
  split; [vm_compute; reflexivity |].
  eexists. split; [vm_compute; reflexivity |].
  repeat split; vm_compute; reflexivity.
Qed.

Lemma extractor_failure_empties_response_witness :
  let rt := Sample.reads Sample.uber_receipt in
  extract_expense_details rt (Sample.amount_raises rt) []
  = Ok (_empty_response rt (str "OCR processing failed: boom")).
Proof.
  cbv zeta.
  apply (extractor_failure_empties_response (Sample.reads Sample.uber_receipt)
           (Sample.amount_raises (Sample.reads Sample.uber_receipt)) []
           (Sample.photo 800 601) Sample.uber_receipt
           {| exn_type := RuntimeError; exn_message := str "boom" |}).
  - reflexivity.
  - reflexivity.
  - vm_compute; reflexivity.
  - vm_compute; reflexivity.
Defined.

(** C3 fails on the code: the tokens found after the loop are returned
    without the range test the loop applies.  On "Change due 0.00 Thank
    you" the extractor returns "0.00", which is not above zero. *)
Theorem fallback_skips_range_test :
  _extract_amount (str "Change due 0.00 Thank you") = Ok (Some (str "0.00"))
  ∧ valid_amount (str "0.00") = false
  ∧ float (str "0.00") = Ok (Finite 0 (-1074)).
Proof. repeat split; vm_compute; reflexivity. Qed.

Lemma short_text_gives_empty_response_witness :
  let rt := Sample.reads (str "Total 5") in
  ∃ r, extract_expense_details rt (self rt) [] = Ok r
    ∧ dom r = seven_keys
    ∧ r !! "category" = Some (Some (str "Other"))
    ∧ r !! "paid_by" = Some (Some (str "Cash"))
    ∧ r !! "date" = Some (Some (strftime_ymd (now rt)))
    ∧ r !! "employee" = Some None
    ∧ r !! "remark" = Some None
    ∧ r !! "amount" = Some None
    ∧ r !! "description"
      = Some (Some (str "No text detected in image. Please ensure the receipt is clear and well-lit.")).
Proof.
  cbv zeta.
  apply (short_text_gives_empty_response (Sample.reads (str "Total 5"))
           (self (Sample.reads (str "Total 5"))) []
           (Sample.photo 800 601) (str "Total 5")).
  - reflexivity.
  - reflexivity.
  - right. apply Nat.ltb_lt. vm_compute. reflexivity.
Defined.

(** C5, as stated, fails: in "2024-03-15" the first pattern finds
    "24-03-15", which parses under none of the seven formats, and the
    extractor does not fall back on the current date (3 November 2026
    here): the second pattern finds the whole date. *)
Lemma date_second_pattern_is_tried :
  let rt := Sample.reads [] in
  option_map (group 0) (search I (nth 0 date_patterns Eps) (str "2024-03-15"))
  = Some (str "24-03-15")
  ∧ parse_formats (str "24-03-15") date_formats = Ok None
  ∧ strftime_ymd (now rt) = str "2026-11-03"
  ∧ _extract_date rt (str "2024-03-15") = Ok (Some (str "2024-03-15")).
Proof. cbv zeta. repeat split; vm_compute; reflexivity. Qed.

(** C6, as stated, fails: an earlier "total" takes the match. *)
Lemma total_4567_shadowed :
  contains (str "Total: $45.67") Sample.shadowed_total = true
  ∧ _extract_amount Sample.shadowed_total = Ok (Some (str "12.00"))
  ∧ _extract_amount Sample.shadowed_total ≠ Ok (Some (str "45.67")).
Proof.
  split; [vm_compute; reflexivity |].
  assert (H : _extract_amount Sample.shadowed_total = Ok (Some (str "12.00")))
    by (vm_compute; reflexivity).
  split; [exact H |]. rewrite H. discriminate.
Qed.

Lemma total_4567_witness :
  let pre := str ("Cafe Uno" ++ Sample.nl)%string in
  let post := str (Sample.nl ++ "Thank you")%string in
  ends_amount post = true
  ∧ _extract_amount (pre ++ str "Total: $45.67" ++ post) = Ok (Some (str "45.67")).
Proof.
  cbv zeta. split; [reflexivity |].
  apply (total_4567 (str ("Cafe Uno" ++ Sample.nl)%string)
           (str (Sample.nl ++ "Thank you")%string)).
  - intros i Hi.
    do 9 (destruct i as [|i]; [reflexivity |]).
    vm_compute in Hi. lia.
  - reflexivity.
Defined.

(** C7, as stated, fails: Food comes first in the table. *)
Lemma uber_with_food_is_food :
  contains (str "uber") (lower Sample.uber_eats) = true
  ∧ _extract_category Sample.uber_eats = str "Food"
  ∧ _extract_category Sample.uber_eats ≠ str "Transportation".
Proof.
  split; [vm_compute; reflexivity |].
  split; [vm_compute; reflexivity |]. vm_compute. discriminate.
Qed.

Lemma uber_without_food_is_transportation_witness :
  contains (str "uber") (lower Sample.uber_receipt) = true
  ∧ _extract_category Sample.uber_receipt = str "Transportation".
Proof.
  split; [vm_compute; reflexivity |].
  apply (uber_without_food_is_transportation Sample.uber_receipt).
  - vm_compute; reflexivity.
  - repeat constructor.
Defined.

(** C8, as stated, fails: an 800x601 image becomes 1500x1126, while
    601 * 1500 / 800 = 1126.875 rounds to 1127. *)
Lemma upscale_height_not_nearest :
  size (_preprocess_image (Sample.reads []) (Sample.photo 800 601))
  = (1500, 1126)%Z
  ∧ nearest (601 * 1500) 800 = 1127%Z.
Proof. split; vm_compute; reflexivity. Qed.

Lemma upscale_truncates_witness :
  ((800 < 1000)%Z →
     ∃ s nw nh, int_truediv 1500 800 = Ok s
                ∧ scaled 800 s = Ok nw ∧ scaled 601 s = Ok nh
                ∧ size (_preprocess_image (Sample.reads []) (Sample.photo 800 601))
                  = (nw, nh))
  ∧ ((1000 ≤ 800)%Z →
     size (_preprocess_image (Sample.reads []) (Sample.photo 800 601))
     = (800, 601)%Z).
Proof.
  apply (upscale_truncates (Sample.reads []) (Sample.photo 800 601) 800 601).
  - split; intros; eexists; split; reflexivity.
  - reflexivity.
  - reflexivity.
  - split; reflexivity.
Defined.

(** The width is computed the same way, and the double product does not
    always come back to 1500: it is 1499 for a width of 91. *)
Remark upscale_width_91 :
  size (_preprocess_image (Sample.reads []) (Sample.photo 91 100))
  = (1499, 1648)%Z.
Proof. vm_compute. reflexivity. Qed.

(** C10, as stated, fails: the text holds a valid "amount"-labelled
    value and, further on, a valid "total"-labelled value, and the
    extractor returns the former, because the leftmost match of the
    total pattern is the "total: 0.00" inside "Subtotal: 0.00". *)
Lemma later_total_not_returned :
  let text := Sample.amount_then_totals in
  option_map amount_value (match_at IM amount_pattern None 0 text)
  = Some (str "40.00")
  ∧ valid_amount (str "40.00") = true
  ∧ option_map amount_value
      (match_at IM total_pattern (Some 10) 29 (drop 29 text))
    = Some (str "50.00")
  ∧ valid_amount (str "50.00") = true
  ∧ option_map amount_value (search IM total_pattern text) = Some (str "0.00")
  ∧ _extract_amount text = Ok (Some (str "40.00")).
Proof. cbv zeta. repeat split; vm_compute; reflexivity. Qed.

Lemma amount_passes_in_order_witness :
  ∃ m, search IM total_pattern Sample.amount_then_total = Some m
     ∧ m_start m = 14%nat
     ∧ amount_value m = str "50.00"
     ∧ _extract_amount Sample.amount_then_total = Ok (Some (amount_value m)).
Proof.
  eexists. split; [vm_compute; reflexivity |].
  split; [reflexivity |]. split; [reflexivity |].
  eapply (amount_passes_in_order Sample.amount_then_total 0 total_pattern).
  - reflexivity.
  - vm_compute; reflexivity.
  - vm_compute; reflexivity.
  - intros j q m' Hj. lia.
Defined.

End Samples.

(** ** The matcher only reports what the pattern allows *)

Section Sound.

Import Re.

Variable fl : flags.

Lemma rep_iter_sound (r1 : re) (lo : nat) (hi : option nat) (k : cont) :
  (∀ (s : mstate) (k' : cont) (m : mstate),
     run fl r1 s k' = Some m → ∃ s', spans fl r1 s s' ∧ k' s' = Some m) →
  ∀ (fuel n : nat) (s : mstate) (m : mstate),
    rep_iter (run fl r1) lo hi k fuel n s = Some m →
    ∃ (j : nat) (s' : mstate),
      steps (spans fl r1) j s s' ∧ (lo ≤ n + j)%nat
      ∧ (j = 0%nat ∨ below hi (n + j - 1) = true)
      ∧ k s' = Some m.
Proof.
  intros Hbody fuel. induction fuel as [|fuel IH]; intros n s m Hrun.
  - cbn in Hrun. destruct (Nat.leb_spec lo n); [| discriminate].
    exists 0%nat, s. repeat split; [lia | by left | done].
  - cbn [rep_iter] in Hrun.
    assert (Hleave : (if (lo <=? n)%nat then k s else None) = Some m →
            ∃ (j : nat) (s' : mstate),
              steps (spans fl r1) j s s' ∧ (lo ≤ n + j)%nat
              ∧ (j = 0%nat ∨ below hi (n + j - 1) = true) ∧ k s' = Some m).
    { intros H. destruct (Nat.leb_spec lo n); [| discriminate].
      exists 0%nat, s. repeat split; [lia | by left | done]. }
    destruct (below hi n) eqn:Hb; [| by apply Hleave].
    destruct (run fl r1 s _) as [m'|] eqn:Hr; [| by apply Hleave].
    injection Hrun as ->.
    apply Hbody in Hr as (s1 & Hs1 & Hk).
    destruct (Nat.ltb_spec (pos s) (pos s1)); [| discriminate].
    apply IH in Hk as (j & s' & Hsteps & Hlo & Hhi & Hk).
    exists (S j), s'. repeat split; try done.
    + cbn. eauto.
    + lia.
    + right. destruct Hhi as [-> | Hhi].
      * by replace (n + 1 - 1)%nat with n by lia.
      * by replace (n + S j - 1)%nat with (S n + j - 1)%nat by lia.
Qed.

Lemma run_sound (r : re) :
  ∀ (s : mstate) (k : cont) (m : mstate),
    run fl r s k = Some m → ∃ s', spans fl r s s' ∧ k s' = Some m.
Proof.
  induction r as [|c|negated items|r1 IH1 r2 IH2|r1 IH1 r2 IH2|lo hi r1 IH1
                  |i r1 IH1| | |]; intros s k m Hrun; cbn [run] in Hrun.
  - by exists s.
  - destruct (rest s) as [|x xs] eqn:Hrest; [discriminate |].
    destruct (lit_match fl c x) eqn:Hc; [| discriminate].
    exists (advance x xs s). split; [| done]. cbn. by exists x, xs.
  - destruct (rest s) as [|x xs] eqn:Hrest; [discriminate |].
    destruct (class_match fl negated items x) eqn:Hc; [| discriminate].
    exists (advance x xs s). split; [| done]. cbn. by exists x, xs.
  - apply IH1 in Hrun as (s1 & H1 & Hrun).
    apply IH2 in Hrun as (s2 & H2 & Hk).
    exists s2. split; [| done]. cbn. eauto.
  - destruct (run fl r1 s k) as [m'|] eqn:H1.
    + injection Hrun as ->. apply IH1 in H1 as (s' & Hs & Hk).
      exists s'. split; [by left | done].
    + apply IH2 in Hrun as (s' & Hs & Hk).
      exists s'. split; [by right | done].
  - apply (rep_iter_sound r1 lo hi k IH1) in Hrun
      as (j & s' & Hsteps & Hlo & Hhi & Hk).
    exists s'. split; [| done]. cbn. exists j. repeat split; [lia | | done].
    destruct hi as [h|]; [| done]. destruct Hhi as [-> | Hhi]; [lia |].
    cbn in Hhi. apply Nat.ltb_lt in Hhi. lia.
  - apply IH1 in Hrun as (s1 & H1 & Hk).
    eexists. split; [| exact Hk]. cbn. eauto.
  - destruct (xorb _ _) eqn:Hx; [| discriminate]. by exists s.
  - destruct (at_bol fl s) eqn:Hx; [| discriminate]. by exists s.
  - destruct (at_eol fl s) eqn:Hx; [| discriminate]. by exists s.
Qed.

End Sound.

(** ** The tokens of the amount fallback *)

Section Tokens.

Import Re Float64 OCRService.

Lemma steps_class (fl : flags) (negated : bool) (items : list item) (n : nat) :
  ∀ s s' : mstate,
    steps (spans fl (Class negated items)) n s s' →
    ∃ l : pystr,
      length l = n
      ∧ Forall (λ x, class_match fl negated items x = true) l
      ∧ rest s = l ++ rest s'
      ∧ pos s' = (pos s + n)%nat
      ∧ groups s' = groups s.
Proof.
  induction n as [|n IH]; intros s s' H; cbn in H.
  - subst. exists []. repeat split; [constructor | lia].
  - destruct H as (s1 & (x & xs & Hrest & Hx & ->) & _ & Hsteps).
    apply IH in Hsteps as (l & Hlen & Hall & Hr & Hp & Hg).
    exists (x :: l). cbn in *. repeat split.
    + by rewrite Hlen.
    + by constructor.
    + by rewrite Hrest, Hr.
    + lia.
    + done.
Qed.

Lemma digit_class (fl : flags) (x : N) :
  class_match fl false [IDigit] x = isdecimal x.
Proof. unfold class_match. cbn. by rewrite orb_false_r. Qed.

(** What the money pattern captures: digits, a full stop, two digits. *)
Lemma money_token_shape (bf : option N) (p : nat) (rs : pystr) (m : rmatch) :
  match_at no_flags money_token bf p rs = Some m →
  ∃ (ds fs : pystr),
    ds ≠ [] ∧ Forall (λ x, isdecimal x = true) ds
    ∧ Forall (λ x, isdecimal x = true) fs
    ∧ group 1 m = ds ++ 46 :: fs.
Proof.
  unfold match_at. intros H.
  destruct (run no_flags money_token _ Some) as [s'|] eqn:Hrun; [| discriminate].
  injection H as <-.
  apply run_sound in Hrun as (s1 & Hspans & [= ->]).
  unfold money_token in Hspans. change (ch ".") with 46 in Hspans.
  cbn [seqs spans plus times] in Hspans.
  destruct Hspans as (s2 & [-> _] & s3 & (s4 & Hin & ->) & -> & _).
  destruct Hin as (s5 & (n1 & Hn1 & _ & Hds) & s6 & (x & xs & Hdot & Hx & ->)
                   & n2 & _ & _ & Hfs).
  apply steps_class in Hds as (ds & Hlds & Hads & Hrds & Hpds & _).
  apply steps_class in Hfs as (fs & Hlfs & Hafs & Hrfs & Hpfs & _).
  unfold lit_match in Hx. cbn [IGNORECASE no_flags] in Hx.
  apply N.eqb_eq in Hx as ->.
  cbn [rest pos advance] in *.
  exists ds, fs. repeat split.
  - intros ->. cbn in Hlds. lia.
  - eapply Forall_impl; [exact Hads |]. intros y Hy. cbn beta in Hy.
    by rewrite digit_class in Hy.
  - eapply Forall_impl; [exact Hafs |]. intros y Hy. cbn beta in Hy.
    by rewrite digit_class in Hy.
  - unfold group, set_group. cbn [m_groups groups List.find fst Nat.eqb].
    rewrite Hpfs, Hpds, Hrds, Hdot, Hrfs.
    replace (S (p + n1) + n2 - p)%nat with (length (ds ++ 46 :: fs))
      by (rewrite length_app; cbn; lia).
    replace (ds ++ 46 :: fs ++ rest s4) with ((ds ++ 46 :: fs) ++ rest s4)
      by (by rewrite <- app_assoc).
    by rewrite firstn_app, Nat.sub_diag, firstn_all, firstn_O, app_nil_r.
Qed.

End Tokens.

Section AmountTotal.

Import Re Float64 OCRService.

Lemma split_on_plain (sep : N) (l : pystr) :
  Forall (λ x, x ≠ sep) l → split_on sep l = [l].
Proof.
  induction 1 as [|x l Hx _ IH]; [reflexivity |].
  cbn. rewrite IH. by destruct (N.eqb_spec x sep).
Qed.

Lemma split_on_app (sep : N) (a b : pystr) :
  Forall (λ x, x ≠ sep) a →
  split_on sep (a ++ sep :: b) = a :: split_on sep b.
Proof.
  induction 1 as [|x a Hx _ IH].
  - cbn. rewrite N.eqb_refl. by destruct (split_on sep b).
  - cbn [app split_on]. rewrite IH. by destruct (N.eqb_spec x sep).
Qed.

Lemma isdecimal_not_stop (x : N) : isdecimal x = true → x ≠ 46.
Proof. intros H ->. vm_compute in H. discriminate. Qed.

Lemma digits_value_total (l : pystr) :
  Forall (λ x, isdecimal x = true) l →
  ∀ acc, ∃ n, digits_value acc l = Some n.
Proof.
  induction 1 as [|x l Hx _ IH]; intros acc; cbn [digits_value]; [eauto |].
  unfold isdecimal in Hx. destruct (decimal x); [apply IH | discriminate].
Qed.

(** A string of digits, a full stop and digits is a float literal. *)
Lemma float_of_token (ds fs : pystr) :
  ds ≠ [] → Forall (λ x, isdecimal x = true) ds →
  Forall (λ x, isdecimal x = true) fs →
  ∃ x, float (ds ++ 46 :: fs) = Ok x.
Proof.
  intros Hne Hds Hfs. unfold float.
  rewrite split_on_app, split_on_plain.
  - cbv beta iota zeta.
    destruct ds as [|d ds]; [done |].
    destruct (digits_value_total ((d :: ds) ++ fs)) with (acc := 0%Z) as [n ->].
    { by apply Forall_app. }
    eauto.
  - eapply Forall_impl; [exact Hfs |]. apply isdecimal_not_stop.
  - eapply Forall_impl; [exact Hds |]. apply isdecimal_not_stop.
Qed.

(** Every match reported by [finditer] is a match of the pattern
    somewhere. *)
Lemma finditer_matches (fl : flags) (r : re) (rs : pystr) :
  ∀ (skip : nat) (bf : option N) (p : nat) (m : rmatch),
    In m (finditer fl r skip bf p rs) →
    ∃ bf' p' rs', match_at fl r bf' p' rs' = Some m.
Proof.
  induction rs as [|x xs IH]; intros skip bf p m Hin.
  - destruct skip; cbn in Hin; [| done].
    destruct (match_at fl r bf p []) as [m'|] eqn:Hm; cbn in Hin; [| done].
    destruct Hin as [<- | []]. eauto.
  - destruct skip; cbn [finditer] in Hin; [| by eapply IH].
    destruct (match_at fl r bf p (x :: xs)) as [m'|] eqn:Hm; [| by eapply IH].
    destruct Hin as [<- | Hin]; [eauto | by eapply IH].
Qed.

Lemma tokens_parse (text x : pystr) :
  In x (findall no_flags money_token text) → ∃ k, float x = Ok k.
Proof.
  unfold findall. intros Hin. apply in_map_iff in Hin as (m & <- & Hm).
  apply finditer_matches in Hm as (bf & p & rs & Hm).
  apply money_token_shape in Hm as (ds & fs & Hne & Hds & Hfs & ->).
  by apply float_of_token.
Qed.

End AmountTotal.

(** ** All the outcomes of the amount extractor *)

Section AmountCases.

Import Re Float64 OCRService.
Local Open Scope Z_scope.

(** Two finite floats compare as their values brought to a common
    exponent. *)
Lemma ltb_scaled (m1 e1 m2 e2 K : Z) :
  - K ≤ e1 → - K ≤ e2 →
  ltb (Finite m1 e1) (Finite m2 e2)
  = (m1 * 2 ^ (e1 + K) <? m2 * 2 ^ (e2 + K)).
Proof.
  intros H1 H2. cbn [ltb].
  assert (Hp : 0 < 2 ^ (e2 + K)) by (apply Z.pow_pos_nonneg; lia).
  assert (Hq : 0 < 2 ^ (e1 + K)) by (apply Z.pow_pos_nonneg; lia).
  destruct (Z.le_ge_cases e2 e1) as [Hle | Hle].
  - unfold pow2. replace (Z.max 0 (e1 - e2)) with (e1 - e2) by lia.
    replace (Z.max 0 (e2 - e1)) with 0 by lia.
    replace (e1 + K) with ((e1 - e2) + (e2 + K)) by lia.
    rewrite (Z.pow_add_r 2 (e1 - e2) (e2 + K)) by lia. rewrite Z.pow_0_r, Z.mul_1_r, Z.mul_assoc.
    apply Bool.eq_iff_eq_true. rewrite !Z.ltb_lt.
    apply Z.mul_lt_mono_pos_r. exact Hp.
  - unfold pow2. replace (Z.max 0 (e2 - e1)) with (e2 - e1) by lia.
    replace (Z.max 0 (e1 - e2)) with 0 by lia.
    replace (e2 + K) with ((e2 - e1) + (e1 + K)) by lia.
    rewrite (Z.pow_add_r 2 (e2 - e1) (e1 + K)) by lia. rewrite Z.pow_0_r, Z.mul_1_r, Z.mul_assoc.
    apply Bool.eq_iff_eq_true. rewrite !Z.ltb_lt.
    apply Z.mul_lt_mono_pos_r. exact Hq.
Qed.

Lemma ltb_irrefl (a : float64) : ltb a a = false.
Proof. destruct a as [m e|]; [| reflexivity]. cbn. apply Z.ltb_irrefl. Qed.

(** [ltb] is the strict part of a total preorder: if [c] is not above
    [a], nothing at least as large as [a] is below [c]. *)
Lemma ltb_order (a b c : float64) :
  ltb a c = false → ltb b a = false → ltb b c = false.
Proof.
  destruct a as [ma ea|], b as [mb eb|], c as [mc ec|]; cbn [ltb];
    try done.
  set (K := Z.max (- ea) (Z.max (- eb) (- ec))).
  change (ltb (Finite ma ea) (Finite mc ec) = false →
          ltb (Finite mb eb) (Finite ma ea) = false →
          ltb (Finite mb eb) (Finite mc ec) = false).
  rewrite (ltb_scaled ma ea mc ec K), (ltb_scaled mb eb ma ea K),
    (ltb_scaled mb eb mc ec K) by lia.
  intros H1 H2. apply Z.ltb_ge in H1, H2. apply Z.ltb_ge. lia.
Qed.

Lemma ltb_true_false (a b : float64) : ltb a b = true → ltb b a = false.
Proof.
  destruct a as [ma ea|], b as [mb eb|]; cbn [ltb]; try done.
  set (K := Z.max (- ea) (- eb)).
  change (ltb (Finite ma ea) (Finite mb eb) = true →
          ltb (Finite mb eb) (Finite ma ea) = false).
  rewrite (ltb_scaled ma ea mb eb K), (ltb_scaled mb eb ma ea K) by lia.
  intros H. apply Z.ltb_lt in H. apply Z.ltb_ge. lia.
Qed.

Lemma max_by_float_spec (l : list pystr) :
  ∀ (best : pystr) (kbest : float64),
    (∀ y, In y l → ∃ k, float y = Ok k) →
    ∃ b kb, max_by_float best kbest l = Ok b
            ∧ (b = best ∧ kb = kbest ∨ In b l ∧ float b = Ok kb)
            ∧ ltb kb kbest = false
            ∧ ∀ y ky, In y l → float y = Ok ky → ltb kb ky = false.
Proof.
  induction l as [|x l IH]; intros best kbest Hall.
  - exists best, kbest. cbn. repeat split; [by left | apply ltb_irrefl | done].
  - destruct (Hall x (or_introl eq_refl)) as [kx Hkx].
    cbn [max_by_float]. rewrite Hkx. cbn.
    destruct (ltb kbest kx) eqn:Hlt.
    + destruct (IH x kx) as (b & kb & Hb & Hsrc & Hge & Hmax).
      { intros y Hy. apply Hall. by right. }
      exists b, kb. repeat split; try done.
      * right. destruct Hsrc as [[-> ->] | [Hin Hf]]; [by split; [left |] |].
        split; [by right | done].
      * apply (ltb_order kx); [by apply ltb_true_false | done].
      * intros y ky [<- | Hy] Hf; [| by eapply Hmax].
        rewrite Hkx in Hf. by injection Hf as <-.
    + destruct (IH best kbest) as (b & kb & Hb & Hsrc & Hge & Hmax).
      { intros y Hy. apply Hall. by right. }
      exists b, kb. repeat split; try done.
      * destruct Hsrc as [? | [Hin Hf]]; [by left | right].
        split; [by right | done].
      * intros y ky [<- | Hy] Hf; [| by eapply Hmax].
        rewrite Hkx in Hf. injection Hf as <-.
        by apply (ltb_order kbest).
Qed.

Lemma amount_fallback_cases (text : pystr) :
  (findall no_flags money_token text = [] ∧ amount_fallback text = Ok None)
  ∨ ∃ a, amount_fallback text = Ok (Some a) ∧ largest_token text a.
Proof.
  unfold amount_fallback, largest_token.
  pose proof (tokens_parse text) as Hparse.
  destruct (findall no_flags money_token text) as [|x amounts]; [by left |].
  right. destruct (Hparse x (or_introl eq_refl)) as [kx Hkx].
  rewrite Hkx. cbn.
  destruct (max_by_float_spec amounts x kx) as (b & kb & -> & Hsrc & Hge & Hmax).
  { intros y Hy. apply Hparse. by right. }
  cbn. exists b. split; [done |].
  assert (Hfb : float b = Ok kb).
  { destruct Hsrc as [[-> ->] | [_ H]]; done. }
  split.
  - destruct Hsrc as [[-> _] | [Hin _]]; [by left | by right].
  - exists kb. split; [done |].
    intros y ky [<- | Hy] Hf; [| by eapply Hmax].
    rewrite Hkx in Hf. by injection Hf as <-.
Qed.

Lemma bind_Ok {A B : Type} (a : A) (f : A → result B) : (Ok a ≫= f) = f a.
Proof. reflexivity. Qed.

Lemma amount_loop_cases (text : pystr) (patterns : list re) :
  ∃ v, amount_loop patterns text = Ok v
    ∧ match v with
      | Some a =>
          (∃ p, In p patterns ∧ pass_accepts text p a)
          ∨ ((∀ p, In p patterns → pass_rejects text p)
             ∧ largest_token text a)
      | None =>
          (∀ p, In p patterns → pass_rejects text p)
          ∧ findall no_flags money_token text = []
      end.
Proof.
  induction patterns as [|p patterns IH].
  - cbn [amount_loop].
    destruct (amount_fallback_cases text) as [[Hnone ->] | (a & -> & Hmax)].
    + exists None. split; [done |]. split; [intros ? [] | done].
    + exists (Some a). split; [done |]. right. split; [intros ? [] | done].
  - cbn [amount_loop]. rewrite amount_pass_spec, bind_Ok.
    destruct (search IM p text) as [m|] eqn:Hs.
    + destruct (valid_amount (amount_value m)) eqn:Hv.
      * exists (Some (amount_value m)). split; [done |]. left.
        exists p. split; [by left |]. by exists m.
      * destruct IH as (v & -> & Hv').
        exists v. split; [done |].
        assert (Hrej : pass_rejects text p).
        { intros m' Hm'. rewrite Hs in Hm'. by injection Hm' as <-. }
        destruct v as [a|].
        -- destruct Hv' as [(q & Hq & Hacc) | [Hall Hmax]].
           ++ left. exists q. split; [by right | done].
           ++ right. split; [| done]. intros q [<- | Hq]; eauto.
        -- destruct Hv' as [Hall Hnone]. split; [| done].
           intros q [<- | Hq]; eauto.
    + destruct IH as (v & -> & Hv').
      exists v. split; [done |].
      assert (Hrej : pass_rejects text p).
      { intros m' Hm'. rewrite Hs in Hm'. discriminate. }
      destruct v as [a|].
      * destruct Hv' as [(q & Hq & Hacc) | [Hall Hmax]].
        -- left. exists q. split; [by right | done].
        -- right. split; [| done]. intros q [<- | Hq]; eauto.
      * destruct Hv' as [Hall Hnone]. split; [| done].
        intros q [<- | Hq]; eauto.
Qed.


End AmountCases.

(** ** The keyword tables *)

Section Tables.

Import OCRService.

Lemma first_label_cases (table : list (string * list string))
    (text_lower : pystr) (default : string) :
  (first_label table text_lower default = default
   ∧ ∀ row, In row table → any_keyword (snd row) text_lower = false)
  ∨ ∃ (i : nat) (label : string) (keywords : list string),
      table !! i = Some (label, keywords)
      ∧ any_keyword keywords text_lower = true
      ∧ (∀ (j : nat) (row : string * list string),
           (j < i)%nat → table !! j = Some row →
           any_keyword (snd row) text_lower = false)
      ∧ first_label table text_lower default = label.
Proof.
  induction table as [|[label keywords] table IH].
  - left. split; [reflexivity |]. intros ? [].
  - cbn [first_label]. destruct (any_keyword keywords text_lower) eqn:Hk.
    + right. exists 0%nat, label, keywords. repeat split; try done.
      intros j row Hj. lia.
    + destruct IH as [[Hd Hnone] | (i & l & ks & Hi & Hks & Hbefore & Hr)].
      * left. split; [done |]. intros row [<- | Hin]; [done | by apply Hnone].
      * right. exists (S i), l, ks. repeat split; try done.
        intros j row Hj Hrow. destruct j as [|j]; cbn in Hrow.
        -- by injection Hrow as <-.
        -- apply (Hbefore j row); [lia | done].
Qed.

(** X2.  The category is always one of the eight labels; it is the label
    of the first row of the table, in the order written, one of whose
    keywords occurs in the lower-cased text; it is Other exactly when no
    keyword of any row occurs. *)
Theorem category_first_row_wins (text : pystr) :
  In (_extract_category text) category_labels
  ∧ (_extract_category text = str "Other"
     ↔ ∀ row, In row categories → any_keyword (snd row) (lower text) = false)
  ∧ ∀ (i : nat) (label : string) (keywords : list string),
      categories !! i = Some (label, keywords) →
      any_keyword keywords (lower text) = true →
      (∀ (j : nat) (row : string * list string),
         (j < i)%nat → categories !! j = Some row →
         any_keyword (snd row) (lower text) = false) →
      _extract_category text = str label.
Proof.
  unfold _extract_category.
  destruct (first_label_cases categories (lower text) "Other")
    as [[Hd Hnone] | (i & l & ks & Hi & Hks & Hbefore & Hr)].
  - rewrite Hd. split; [| split].
    + cbn. tauto.
    + split; [done | done].
    + intros i label keywords Hi Hk _.
      apply list_elem_of_lookup_2, list_elem_of_In in Hi.
      apply Hnone in Hi. cbn [snd] in Hi. congruence.
  - rewrite Hr. split; [| split].
    + do 7 (destruct i as [|i]; [injection Hi as <- _; cbn; tauto |]).
      discriminate.
    + split.
      * intros Heq. exfalso.
        do 7 (destruct i as [|i]; [injection Hi as <- _; vm_compute in Heq; discriminate |]).
        discriminate.
      * intros Hnone. apply list_elem_of_lookup_2, list_elem_of_In in Hi.
        apply Hnone in Hi. cbn [snd] in Hi. congruence.
    + intros i' label keywords Hi' Hk Hb.
      destruct (Nat.lt_trichotomy i i') as [Hlt | [<- | Hgt]].
      * pose proof (Hb i (l, ks) Hlt Hi) as Hc. cbn [snd] in Hc. congruence.
      * rewrite Hi in Hi'. by injection Hi' as -> _.
      * pose proof (Hbefore i' (label, keywords) Hgt Hi') as Hc. cbn [snd] in Hc. congruence.
Qed.

(** X3.  The payment method is always one of Credit Card, Debit Card,
    UPI and Cash; it is the label of the first row of the table one of
    whose keywords occurs in the lower-cased text, and Cash when none
    does. *)
Theorem payment_first_row_wins (text : pystr) :
  In (_extract_payment_method text) payment_labels
  ∧ ((∀ row, In row payment_methods → any_keyword (snd row) (lower text) = false)
     → _extract_payment_method text = str "Cash")
  ∧ ∀ (i : nat) (label : string) (keywords : list string),
      payment_methods !! i = Some (label, keywords) →
      any_keyword keywords (lower text) = true →
      (∀ (j : nat) (row : string * list string),
         (j < i)%nat → payment_methods !! j = Some row →
         any_keyword (snd row) (lower text) = false) →
      _extract_payment_method text = str label.
Proof.
  unfold _extract_payment_method.
  destruct (first_label_cases payment_methods (lower text) "Cash")
    as [[Hd Hnone] | (i & l & ks & Hi & Hks & Hbefore & Hr)].
  - rewrite Hd. split; [| split].
    + cbn. tauto.
    + done.
    + intros i label keywords Hi Hk _.
      apply list_elem_of_lookup_2, list_elem_of_In in Hi.
      apply Hnone in Hi. cbn [snd] in Hi. congruence.
  - rewrite Hr. split; [| split].
    + do 4 (destruct i as [|i]; [injection Hi as <- _; cbn; tauto |]).
      discriminate.
    + intros Hnone. apply list_elem_of_lookup_2, list_elem_of_In in Hi.
      apply Hnone in Hi. cbn [snd] in Hi. congruence.
    + intros i' label keywords Hi' Hk Hb.
      destruct (Nat.lt_trichotomy i i') as [Hlt | [<- | Hgt]].
      * pose proof (Hb i (l, ks) Hlt Hi) as Hc. cbn [snd] in Hc. congruence.
      * rewrite Hi in Hi'. by injection Hi' as -> _.
      * pose proof (Hbefore i' (label, keywords) Hgt Hi') as Hc. cbn [snd] in Hc. congruence.
Qed.

End Tables.

(** ** Stripping and splitting *)

Section Strings.

Lemma Forall_lstrip (P : N → Prop) (s : pystr) :
  Forall P s → Forall P (lstrip s).
Proof.
  induction 1 as [|x s Hx Hs IH]; cbn; [constructor |].
  destruct (isspace x); [done | by constructor].
Qed.

Lemma Forall_strip (P : N → Prop) (s : pystr) :
  Forall P s → Forall P (strip s).
Proof.
  intros H. unfold strip, rstrip.
  apply Forall_rev, Forall_lstrip, Forall_rev, Forall_lstrip, H.
Qed.

Lemma lstrip_no_leading_space (s : pystr) : no_leading_space (lstrip s).
Proof.
  induction s as [|x s IH]; cbn; [done |].
  destruct (isspace x) eqn:Hx; [done | exact Hx].
Qed.

(** [lstrip] takes characters off the front only. *)
Lemma lstrip_suffix (s : pystr) : ∃ pre, s = pre ++ lstrip s.
Proof.
  induction s as [|x s [pre IH]]; [by exists [] |]. cbn.
  destruct (isspace x); [| by exists []].
  exists (x :: pre). cbn. by rewrite <- IH.
Qed.

Lemma rstrip_prefix (s : pystr) : ∃ suf, s = rstrip s ++ suf.
Proof.
  unfold rstrip. destruct (lstrip_suffix (rev s)) as [pre H].
  exists (rev pre). rewrite <- rev_app_distr, <- H. by rewrite rev_involutive.
Qed.

Lemma strip_no_leading_space (s : pystr) : no_leading_space (strip s).
Proof.
  unfold strip. pose proof (lstrip_no_leading_space s) as H.
  destruct (rstrip_prefix (lstrip s)) as [suf Hs].
  destruct (rstrip (lstrip s)) as [|x t]; [done |].
  rewrite Hs in H. exact H.
Qed.

Lemma length_strip (s : pystr) : (length (strip s) ≤ length s)%nat.
Proof.
  unfold strip. destruct (rstrip_prefix (lstrip s)) as [suf H1].
  destruct (lstrip_suffix s) as [pre H2].
  apply (f_equal (@length N)) in H1, H2. rewrite length_app in H1, H2. lia.
Qed.

Lemma split_on_nonempty (sep : N) (s : pystr) : split_on sep s ≠ [].
Proof.
  destruct s as [|x s]; cbn; [done |].
  destruct (split_on sep s); [done |]. by destruct (x =? sep).
Qed.

Lemma split_on_append (sep : N) (a b : pystr) :
  split_on sep (a ++ sep :: b) = split_on sep a ++ split_on sep b.
Proof.
  induction a as [|x a IH].
  - cbn. rewrite N.eqb_refl. by destruct (split_on sep b).
  - cbn [app split_on]. rewrite IH.
    pose proof (split_on_nonempty sep a) as Hne.
    destruct (split_on sep a) as [|piece pieces]; [done |]. cbn.
    by destruct (x =? sep).
Qed.

End Strings.

(** ** Description, remark and employee *)

Section Description.

Import Re OCRService.

(** Substitution by the empty string of a one-character class drops the
    characters of the class. *)
Lemma sub_class (fl : flags) (negated : bool) (items : list item)
    (rs : pystr) :
  ∀ (bf : option N) (p : nat),
    sub_empty fl (Class negated items) 0 bf p rs
    = List.filter (λ x, negb (class_match fl negated items x)) rs.
Proof.
  induction rs as [|x xs IH]; intros bf p; [reflexivity |].
  cbn [sub_empty List.filter]. unfold match_at. cbn [run rest].
  destruct (class_match fl negated items x); cbn [negb].
  - cbn [m_end advance pos]. replace (S p - p)%nat with 1%nat by lia.
    apply IH.
  - f_equal. apply IH.
Qed.

Lemma unwanted_class (x : N) :
  class_match no_flags true
    [IRange (ch "a") (ch "z"); IRange (ch "A") (ch "Z");
     IRange (ch "0") (ch "9"); ISpace; IChar (ch "&"); IChar 39;
     IChar (ch "-")] x
  = negb (description_char x).
Proof.
  unfold class_match, description_char.
  change (ch "a") with 97. change (ch "z") with 122.
  change (ch "A") with 65. change (ch "Z") with 90.
  change (ch "0") with 48. change (ch "9") with 57.
  change (ch "&") with 38. change (ch "-") with 45.
  cbn [existsb item_match lit_match IGNORECASE no_flags andb].
  rewrite !orb_false_r. cbn [xorb].
  by rewrite !orb_assoc.
Qed.

Lemma description_loop_spec (lines : list pystr) (d : pystr) :
  description_loop lines = Some d →
  (3 < length d ≤ 100)%nat
  ∧ Forall (λ x, description_char x = true) d
  ∧ no_leading_space d.
Proof.
  induction lines as [|line lines IH]; [discriminate |].
  cbn [description_loop].
  destruct (_ && _); [| exact IH].
  set (clean := sub no_flags unwanted (strip line)).
  destruct (Nat.ltb_spec 3 (length (strip clean))) as [Hlen | _]; [| exact IH].
  intros H. assert (d = slice_to 100 (strip clean)) as -> by congruence.
  clear H. unfold slice_to. split; [| split].
  - rewrite length_take. lia.
  - apply Forall_take, Forall_strip.
    unfold clean, sub, unwanted. rewrite sub_class.
    apply List.Forall_forall. intros x Hx. apply filter_In in Hx as [_ Hx].
    rewrite unwanted_class in Hx. by rewrite negb_involutive in Hx.
  - pose proof (strip_no_leading_space clean) as Hs.
    destruct (strip clean) as [|x t]; [cbn in Hlen; lia | exact Hs].
Qed.

End Description.

Section MoreExtractors.

Import Re OCRService.

(** X4.  A description, when there is one, has between 4 and 100
    characters, all of them ASCII letters, ASCII digits, white space,
    ampersand, apostrophe or hyphen, and does not begin with white
    space. *)
Theorem description_is_clean (text d : pystr) :
  _extract_description text = Some d →
  (3 < length d ≤ 100)%nat
  ∧ Forall (λ x, description_char x = true) d
  ∧ no_leading_space d.
Proof. apply description_loop_spec. Qed.

(** X5.  Only the first five lines count for the description: once the
    text has five lines, whatever is added after a further line break
    leaves the description unchanged. *)
Theorem description_reads_five_lines (text extra : pystr) :
  (5 ≤ length (split_on 10 text))%nat →
  _extract_description (text ++ 10 :: extra) = _extract_description text.
Proof.
  intros Hlen. unfold _extract_description.
  rewrite split_on_append, firstn_app.
  replace (5 - length (split_on 10 text))%nat with 0%nat by lia.
  by rewrite firstn_O, app_nil_r.
Qed.

Lemma remark_loop_cases (lines : list pystr) :
  match remark_loop lines with
  | Some r =>
      ∃ (i : nat) (line next : pystr),
        lines !! i = Some line ∧ lines !! S i = Some next
        ∧ has_remark_word line = true
        ∧ r = slice_to 200 (strip next)
        ∧ ∀ (j : nat) (l : pystr),
            (j < i)%nat → lines !! j = Some l → has_remark_word l = false
  | None =>
      ∀ (i : nat) (line : pystr),
        lines !! i = Some line → has_remark_word line = true →
        lines !! S i = None
  end.
Proof.
  induction lines as [|line lines IH]; [by intros i line Hi |].
  cbn [remark_loop]. fold (has_remark_word line).
  destruct (has_remark_word line) eqn:Hw.
  - destruct lines as [|next lines].
    + cbn. intros i l Hi _. by destruct i.
    + exists 0%nat, line, next. repeat split; try done. intros j l Hj. lia.
  - destruct (remark_loop lines) as [r|].
    + destruct IH as (i & l & next & Hi & Hn & Hl & Hr & Hbefore).
      exists (S i), l, next. repeat split; try done.
      intros j l' Hj Hl'. destruct j as [|j]; cbn in Hl'.
      * by injection Hl' as <-.
      * apply (Hbefore j l'); [lia | done].
    + intros i l Hi Hl. destruct i as [|i]; cbn in Hi.
      * injection Hi as <-. congruence.
      * by apply (IH i l).
Qed.

(** X6.  The remark is the line that follows the first line holding
    note, remark, comment or memo (in any case), stripped and cut to 200
    characters; there is no remark exactly when every line holding such
    a word is the last line of the text. *)
Theorem remark_follows_first_keyword_line (text : pystr) :
  match _extract_remark text with
  | Some r =>
      (length r ≤ 200)%nat ∧ no_leading_space r
      ∧ ∃ (i : nat) (line next : pystr),
          split_on 10 text !! i = Some line
          ∧ split_on 10 text !! S i = Some next
          ∧ has_remark_word line = true
          ∧ r = slice_to 200 (strip next)
          ∧ ∀ (j : nat) (l : pystr),
              (j < i)%nat → split_on 10 text !! j = Some l →
              has_remark_word l = false
  | None =>
      ∀ (i : nat) (line : pystr),
        split_on 10 text !! i = Some line → has_remark_word line = true →
        split_on 10 text !! S i = None
  end.
Proof.
  unfold _extract_remark.
  pose proof (remark_loop_cases (split_on 10 text)) as H.
  destruct (remark_loop (split_on 10 text)) as [r|]; [| exact H].
  destruct H as (i & line & next & Hi & Hn & Hw & -> & Hbefore).
  split; [| split].
  - unfold slice_to. rewrite length_take. lia.
  - unfold slice_to. pose proof (strip_no_leading_space next) as Hs.
    destruct (strip next) as [|x t]; [done | exact Hs].
  - by exists i, line, next.
Qed.

End MoreExtractors.

Section Employee.

Import Re OCRService.

Lemma decimal_in_block (blocks : list N) (x v : N) :
  decimal_in blocks x = Some v → ∃ b, In b blocks ∧ b ≤ x ≤ b + 9.
Proof.
  induction blocks as [|b blocks IH]; [discriminate |]. cbn.
  unfold in_range.
  destruct (N.leb_spec b x) as [Hlo | Hlo];
    destruct (N.leb_spec x (b + 9)) as [Hhi | Hhi]; cbn.
  - intros _. exists b. split; [by left | lia].
  - intros Hd. destruct (IH Hd) as (b' & Hin & Hb). exists b'. split; [by right | done].
  - intros Hd. destruct (IH Hd) as (b' & Hin & Hb). exists b'. split; [by right | done].
  - intros Hd. destruct (IH Hd) as (b' & Hin & Hb). exists b'. split; [by right | done].
Qed.

(** No decimal digit lies between the ASCII digits and U+0660. *)
Lemma isdecimal_range (x : N) : isdecimal x = true → 48 ≤ x ≤ 57 ∨ 1632 ≤ x.
Proof.
  unfold isdecimal, decimal. destruct (decimal_in decimal_blocks x) as [v|] eqn:H;
    [| discriminate].
  intros _. apply decimal_in_block in H as (b & Hin & Hb).
  assert (Hblocks : forallb (λ b, (b =? 48) || (1632 <=? b)) decimal_blocks = true)
    by (vm_compute; reflexivity).
  rewrite forallb_forall in Hblocks. apply Hblocks in Hin.
  apply orb_true_iff in Hin as [Hb48 | Hbig].
  - apply N.eqb_eq in Hb48. lia.
  - apply N.leb_le in Hbig. lia.
Qed.

Lemma not_decimal (x : N) : 57 < x < 1632 → isdecimal x = false.
Proof.
  intros H. destruct (isdecimal x) eqn:Hd; [| reflexivity].
  apply isdecimal_range in Hd. lia.
Qed.

Lemma letter_range (x : N) : isalpha_ascii x = true → 65 ≤ x ≤ 122.
Proof.
  unfold isalpha_ascii, isupper_ascii, islower_ascii, in_range.
  destruct (N.leb_spec 65 x); destruct (N.leb_spec x 90);
  destruct (N.leb_spec 97 x); destruct (N.leb_spec x 122); cbn; try discriminate; lia.
Qed.

Lemma upper_range (x : N) : isupper_ascii x = true → 65 ≤ x ≤ 90.
Proof.
  unfold isupper_ascii, in_range.
  destruct (N.leb_spec 65 x); destruct (N.leb_spec x 90); cbn; try discriminate; lia.
Qed.

Lemma lower_range (x : N) : islower_ascii x = true → 97 ≤ x ≤ 122.
Proof.
  unfold islower_ascii, in_range.
  destruct (N.leb_spec 97 x); destruct (N.leb_spec x 122); cbn; try discriminate; lia.
Qed.

Lemma name_title_no_digit (s : pystr) :
  ∀ prev_cased : bool,
    Forall (λ x, isdecimal x = false) s →
    Forall (λ x, isdecimal x = false) (name_title prev_cased s).
Proof.
  induction s as [|x s IH]; intros prev_cased Hall; [constructor |].
  inversion Hall as [|? ? Hx Hs]; subst. cbn [name_title].
  destruct (isalpha_ascii x) eqn:Ha.
  { apply letter_range in Ha. constructor; [| by apply IH].
    destruct prev_cased.
    - destruct (isupper_ascii x) eqn:Hu; [| done].
      apply upper_range in Hu. apply not_decimal. lia.
    - destruct (islower_ascii x) eqn:Hl; [| done].
      apply lower_range in Hl. apply not_decimal. lia. }
  destruct (x =? 304).
  { apply Forall_app. split; [| by apply IH].
    destruct prev_cased; repeat constructor. }
  destruct (x =? 305).
  { constructor; [| by apply IH]. by destruct prev_cased. }
  destruct (x =? 383).
  { constructor; [| by apply IH]. by destruct prev_cased. }
  destruct (x =? 8490).
  { constructor; [| by apply IH]. by destruct prev_cased. }
  constructor; [done | by apply IH].
Qed.

Lemma name_title_length (s : pystr) :
  ∀ prev_cased : bool, (length s ≤ length (name_title prev_cased s))%nat.
Proof.
  induction s as [|x s IH]; intros prev_cased; [done |]. cbn [name_title].
  destruct (isalpha_ascii x).
  { cbn [length]. pose proof (IH true). lia. }
  destruct (x =? 304).
  { rewrite length_app. pose proof (IH true).
    destruct prev_cased; cbn [length]; lia. }
  destruct (x =? 305); [cbn [length]; pose proof (IH true); lia |].
  destruct (x =? 383); [cbn [length]; pose proof (IH true); lia |].
  destruct (x =? 8490); [cbn [length]; pose proof (IH true); lia |].
  cbn [length]. pose proof (IH false). lia.
Qed.

Lemma search_digit_none (name : pystr) :
  ∀ (bf : option N) (p : nat),
    scan no_flags digit bf p name = None →
    Forall (λ x, isdecimal x = false) name.
Proof.
  induction name as [|x xs IH]; intros bf p H; [constructor |].
  cbn [scan] in H. unfold match_at in H. cbn [run rest digit] in H.
  unfold class_match in H. cbn [existsb item_match] in H.
  rewrite orb_false_r in H. cbn [xorb] in H.
  destruct (isdecimal x) eqn:Hx; [discriminate |].
  constructor; [done | by eapply IH].
Qed.

Lemma employee_loop_spec (patterns : list re) (text n : pystr) :
  employee_loop patterns text = Some n →
  (2 < length n)%nat ∧ Forall (λ x, isdecimal x = false) n.
Proof.
  induction patterns as [|pattern patterns IH]; [discriminate |].
  cbn [employee_loop].
  destruct (search I pattern text) as [m|]; [| exact IH].
  set (name := strip (group 1 m)).
  destruct (Nat.ltb_spec 2 (length name)) as [H2 | _]; [| exact IH].
  destruct (Nat.ltb_spec (length name) 50) as [H50 | _]; [| exact IH].
  cbn [andb].
  destruct (search no_flags digit name) as [?|] eqn:Hd; [exact IH |].
  cbn [is_some negb]. intros H.
  assert (n = name_title false name) as -> by congruence.
  split.
  - pose proof (name_title_length name false). lia.
  - apply name_title_no_digit. by eapply search_digit_none.
Qed.

(** X7.  An employee name, when there is one, has at least three
    characters and holds no decimal digit. *)
Theorem employee_name_shape (text n : pystr) :
  _extract_employee text = Some n →
  (2 < length n)%nat ∧ Forall (λ x, isdecimal x = false) n.
Proof. apply employee_loop_spec. Qed.

End Employee.

(** ** The shape of the date *)

Section DateShape.

Import Re Strptime OCRService.






End DateShape.

(** ** The upload endpoint *)

Section EndpointFacts.

Import OCRService Endpoint.

Variable rt : runtime.
Variable self : methods.
Variable allowed_listing : pystr.

Lemma last_piece (base ext : pystr) :
  Forall (λ x, x ≠ 46) ext →
  List.last (split_on 46 (base ++ 46 :: ext)) [] = ext.
Proof.
  intros Hext. rewrite split_on_append, (split_on_plain 46 ext Hext).
  apply last_last.
Qed.

(** X9.  File validation looks at what follows the last full stop of
    the file name, without regard to case: with a content type that
    starts with image/, the file is accepted exactly when that piece,
    lower-cased, is one of png, jpg, jpeg, gif, bmp, tiff, webp. *)
Theorem validation_reads_last_extension (base ext ct : pystr)
    (rd : result (list Byte.byte)) :
  Forall (λ x, x ≠ 46) ext →
  startswith (str "image/") ct = true →
  validate_image_file allowed_listing
    {| filename := Some (base ++ 46 :: ext); content_type := Some ct;
       read := rd |} = Return ()
  ↔ member (lower ext) ALLOWED_EXTENSIONS = true.
Proof.
  intros Hext Hct. unfold validate_image_file. cbn [filename content_type].
  destruct (base ++ 46 :: ext) as [|c name] eqn:Hname.
  { by destruct base. }
  rewrite <- Hname, (last_piece base ext Hext).
  destruct (member (lower ext) ALLOWED_EXTENSIONS); cbn [negb].
  - rewrite Hct. destruct ct; [discriminate |]. cbn. done.
  - split; discriminate.
Qed.

(** Validation only ever refuses with status 400. *)
Lemma validation_outcomes (file : UploadFile) :
  validate_image_file allowed_listing file = Return ()
  ∨ ∃ detail, validate_image_file allowed_listing file
              = HTTPException 400 detail.
Proof.
  unfold validate_image_file.
  destruct (filename file) as [[|c name]|]; [eauto | | eauto].
  destruct (negb _); [eauto |].
  destruct (content_type file) as [ct|]; [| eauto].
  destruct (_ || _); eauto.
Qed.

Lemma extract_returns (content : list Byte.byte) :
  ∃ r, extract_expense_details rt self content = Ok r ∧ well_formed r.
Proof.
  rewrite handler_catches.
  destruct (extract_body rt self content) as [r|e] eqn:Hbody.
  - exists r. split; [done |]. by eapply body_well_formed.
  - eexists. split; [done |]. apply empty_response_well_formed.
Qed.

(** X10.  An upload that passes validation, is read and holds at most
    10 MB (10485760 bytes, the bound included) is always answered with
    success, whatever the bytes are and whatever the decoder, PIL and the
    recogniser do: the data is what [extract_expense_details] returned,
    a well-formed response. *)
Theorem accepted_upload_is_answered (receipt : UploadFile)
    (content : list Byte.byte) :
  validate_image_file allowed_listing receipt = Return () →
  read receipt = Ok content →
  (N.of_nat (length content) ≤ MAX_FILE_SIZE)%N →
  ∃ r, process_receipt_ocr rt self allowed_listing receipt = Reply r
    ∧ success r = true
    ∧ extract_expense_details rt self content = Ok (data r)
    ∧ well_formed (data r).
Proof.
  intros Hval Hread Hsize.
  unfold process_receipt_ocr, receipt_body. rewrite Hval, Hread.
  destruct (N.ltb_spec MAX_FILE_SIZE (N.of_nat (length content))); [lia |].
  destruct (extract_returns content) as (r & -> & Hwf).
  eexists. split; [reflexivity |]. cbn. done.
Qed.

(** X11.  An upload of more than 10485760 bytes is refused with status
    400, whatever the image service would do with it. *)
Theorem oversized_upload_is_refused (receipt : UploadFile)
    (content : list Byte.byte) :
  validate_image_file allowed_listing receipt = Return () →
  read receipt = Ok content →
  (MAX_FILE_SIZE < N.of_nat (length content))%N →
  process_receipt_ocr rt self allowed_listing receipt
  = Abort 400 (str "File size exceeds maximum allowed size of 10.0MB").
Proof.
  intros Hval Hread Hsize.
  unfold process_receipt_ocr, receipt_body. rewrite Hval, Hread.
  by destruct (N.ltb_spec MAX_FILE_SIZE (N.of_nat (length content))); [| lia].
Qed.

(** X12.  The endpoint answers with status 500 only when reading the
    upload raised; neither validation nor the extraction can cause it. *)
Theorem server_error_only_from_read (receipt : UploadFile) (detail : pystr) :
  process_receipt_ocr rt self allowed_listing receipt = Abort 500 detail →
  ∃ e, read receipt = Raise e
       ∧ detail = str "Failed to process receipt: " ++ exn_message e.
Proof.
  unfold process_receipt_ocr, receipt_body.
  destruct (validation_outcomes receipt) as [-> | [d ->]]; [| discriminate].
  destruct (read receipt) as [content|e]; [| intros [= <-]; eauto].
  destruct (_ <? _)%N; [discriminate |].
  destruct (extract_returns content) as (r & -> & _). discriminate.
Qed.

End EndpointFacts.

(** ** The validators of the Expense model *)

Section Validators.

Import OCRService Expense.

(** X13.  What the category and payment extractors return goes through
    the validators of the Expense model unchanged. *)
Theorem extracted_labels_pass_validation (text : pystr) :
  valid_category (_extract_category text) = _extract_category text
  ∧ valid_payment_method (_extract_payment_method text)
    = _extract_payment_method text.
Proof.
  split.
  - destruct (category_first_row_wins text) as [Hin _].
    unfold category_labels in Hin. cbn [map In] in Hin.
    unfold valid_category.
    repeat (destruct Hin as [<- | Hin]; [reflexivity |]). done.
  - destruct (payment_first_row_wins text) as [Hin _].
    unfold payment_labels in Hin. cbn [map In] in Hin.
    unfold valid_payment_method.
    repeat (destruct Hin as [<- | Hin]; [reflexivity |]). done.
Qed.

(** X14.  The validators of category, payment method and status always
    return a member of their list (replacing anything else by Other,
    Cash, Pending) and applying one twice is applying it once. *)
Theorem validators_close_the_sets (v : pystr) :
  In (valid_category v) valid_categories
  ∧ In (valid_payment_method v) valid_methods
  ∧ In (valid_status v) valid_statuses
  ∧ valid_category (valid_category v) = valid_category v
  ∧ valid_payment_method (valid_payment_method v) = valid_payment_method v
  ∧ valid_status (valid_status v) = valid_status v.
Proof.
  assert (Hmem : ∀ x l, Endpoint.member x l = true → In x l).
  { intros x l H. unfold Endpoint.member in H.
    apply existsb_exists in H as (y & Hy & Heq).
    enough (x = y) by congruence.
    clear Hy. revert y Heq. induction x as [|a x IH]; intros [|b y] H;
      cbn in H; try discriminate; [done |].
    apply andb_true_iff in H as [Hab Hxy]. apply N.eqb_eq in Hab as ->.
    f_equal. by apply IH. }
  unfold valid_category, valid_payment_method, valid_status.
  repeat split.
  - destruct (Endpoint.member v valid_categories) eqn:H; cbn [negb];
      [by apply Hmem | cbn; tauto].
  - destruct (Endpoint.member v valid_methods) eqn:H; cbn [negb];
      [by apply Hmem | cbn; tauto].
  - destruct (Endpoint.member v valid_statuses) eqn:H; cbn [negb];
      [by apply Hmem | cbn; tauto].
  - destruct (Endpoint.member v valid_categories) eqn:H; cbn [negb];
      [by rewrite H | reflexivity].
  - destruct (Endpoint.member v valid_methods) eqn:H; cbn [negb];
      [by rewrite H | reflexivity].
  - destruct (Endpoint.member v valid_statuses) eqn:H; cbn [negb];
      [by rewrite H | reflexivity].
Qed.

End Validators.

(** ** The class as written *)

Section ClassAsWritten.

Import Re Strptime OCRService.

(** X15.  With the extractors of the class as written no extractor
    raises: when the image is decoded and the recognised text has ten
    characters or more once stripped, the response holds, key by key,
    what the seven extractors return on that text. *)
Theorem class_as_written_assembles (rt : runtime) (content : list Byte.byte)
    (img : pil_image) (text : pystr) :
  Image_open rt content = Ok img →
  image_to_string rt (_preprocess_image rt img) = Ok text →
  too_short text = false →
  ∃ d a,
    _extract_date rt text = Ok (Some d)
    ∧ _extract_amount text = Ok a
    ∧ extract_expense_details rt (self rt) content
      = Ok (<["employee" := _extract_employee text]>
           (<["description" := _extract_description text]>
           (<["date" := Some d]>
           (<["category" := Some (_extract_category text)]>
           (<["paid_by" := Some (_extract_payment_method text)]>
           (<["remark" := _extract_remark text]>
           (<["amount" := a]> ∅))))))).
Proof.
  intros Hopen Hread Hlong.
  destruct (date_loop_cases rt text date_patterns) as (d & Hd & _).
  destruct (amount_loop_cases text amount_patterns) as (a & Ha & _).
  change (_extract_date rt text = Ok (Some d)) in Hd.
  change (_extract_amount text = Ok a) in Ha.
  exists d, a. split; [exact Hd |]. split; [exact Ha |].
  rewrite handler_catches, (body_after_recognition _ _ _ _ _ Hopen Hread), Hlong.
  cbn [self extract_employee extract_description extract_date
       extract_category extract_payment_method extract_remark extract_amount].
  rewrite Hd, Ha. reflexivity.
Qed.

End ClassAsWritten.

(** ** The image normaliser, further *)

Section ImageFacts.

Import Float64 OCRService.
Local Open Scope Z_scope.

(** X16.  Normalisation is best effort: when the width is 0 (the
    division by zero is swallowed), or is 1000 or more, or PIL's resize
    raises, the image comes back with its size unchanged. *)
Theorem preprocessing_is_best_effort (rt : runtime) (img : pil_image) :
  conversion_keeps_size rt →
  (fst (size img) = 0 ∨ 1000 ≤ fst (size img)
   ∨ ∀ im sz, ∃ e, resize rt im sz = Raise e) →
  size (_preprocess_image rt img) = size img.
Proof.
  intros Hconv Hcase. unfold _preprocess_image.
  destruct (negb (String.eqb (mode img) "RGB")).
  - destruct (convert rt img "RGB") as [im1|] eqn:H1; [| done].
    pose proof (Hconv _ _ _ H1) as Hs1.
    destruct (convert rt im1 "L") as [im2|] eqn:H2; [| done].
    pose proof (Hconv _ _ _ H2) as Hs2.
    rewrite Hs2, Hs1. destruct (size img) as [w h] eqn:Hsz. cbn [fst] in Hcase.
    destruct (Z.ltb_spec w 1000); [| congruence].
    destruct Hcase as [-> | [Hge | Hres]]; [cbn; congruence | lia |].
    destruct (int_truediv 1500 w); cbn; [| congruence].
    destruct (int_mul w a); cbn; [| congruence].
    destruct (to_int a0); cbn; [| congruence].
    destruct (int_mul h a); cbn; [| congruence].
    destruct (to_int a2); cbn; [| congruence].
    destruct (Hres im2 (a1, a3)) as [e ->]. congruence.
  - destruct (convert rt img "L") as [im2|] eqn:H2; [| done].
    pose proof (Hconv _ _ _ H2) as Hs2.
    rewrite Hs2. destruct (size img) as [w h] eqn:Hsz. cbn [fst] in Hcase.
    destruct (Z.ltb_spec w 1000); [| congruence].
    destruct Hcase as [-> | [Hge | Hres]]; [cbn; congruence | lia |].
    destruct (int_truediv 1500 w); cbn; [| congruence].
    destruct (int_mul w a); cbn; [| congruence].
    destruct (to_int a0); cbn; [| congruence].
    destruct (int_mul h a); cbn; [| congruence].
    destruct (to_int a2); cbn; [| congruence].
    destruct (Hres im2 (a1, a3)) as [e ->]. congruence.
Qed.

Lemma preprocess_upscaled (rt : runtime) (img : pil_image) (w h nw nh : Z)
    (s : float64) :
  pil_succeeds rt → size img = (w, h) → w < 1000 →
  int_truediv 1500 w = Ok s → scaled w s = Ok nw → scaled h s = Ok nh →
  size (_preprocess_image rt img) = (nw, nh).
Proof.
  intros [Hconv Hres] Hsize Hw Hs Hnw Hnh. unfold _preprocess_image.
  assert (H1 : ∃ im1, (if negb (String.eqb (mode img) "RGB")
                       then convert rt img "RGB" else Ok img) = Ok im1
                      ∧ size im1 = (w, h)).
  { destruct (negb _).
    - destruct (Hconv img "RGB"%string) as (im1 & -> & Hs1). exists im1. by rewrite Hs1.
    - by exists img. }
  destruct H1 as (im1 & -> & Hs1).
  destruct (Hconv im1 "L"%string) as (im2 & -> & Hs2).
  rewrite Hs2, Hs1. destruct (Z.ltb_spec w 1000); [| lia].
  rewrite Hs. cbn. unfold scaled in Hnw, Hnh.
  destruct (int_mul w s) as [xw|]; [| discriminate]. cbn in Hnw |- *.
  rewrite Hnw. cbn.
  destruct (int_mul h s) as [xh|]; [| discriminate]. cbn in Hnh |- *.
  rewrite Hnh. cbn.
  by destruct (Hres im2 (nw, nh)) as (im3 & -> & Hs3).
Qed.

Lemma widths_land :
  forallb width_lands (map Z.of_nat (seq 1 999)) = true.
Proof. vm_compute. reflexivity. Qed.

(** X17.  For every width from 1 to 999 the upscaled width is 1500 or
    1499, nothing else. *)
Theorem upscaled_width_is_1500_or_1499 (rt : runtime) (img : pil_image)
    (w h : Z) :
  pil_succeeds rt → size img = (w, h) → 0 < w < 1000 → 0 < h < 2 ^ 31 →
  fst (size (_preprocess_image rt img)) = 1500
  ∨ fst (size (_preprocess_image rt img)) = 1499.
Proof.
  intros Hpil Hsize Hw Hh.
  pose proof widths_land as Hall. rewrite forallb_forall in Hall.
  assert (Hin : In w (map Z.of_nat (seq 1 999))).
  { apply in_map_iff. exists (Z.to_nat w). split; [lia |].
    apply in_seq. lia. }
  apply Hall in Hin. unfold width_lands in Hin.
  destruct (int_truediv 1500 w) as [s|] eqn:Hs; [| discriminate].
  destruct (scaled w s) as [nw|] eqn:Hnw; [| discriminate].
  destruct (int_truediv_ok 1500 w) as (m & e & Hs' & Hm & Hv); [done | lia |].
  rewrite Hs in Hs'. injection Hs' as ->.
  assert (Hpw : 2 ^ 31 < 2 ^ 32) by reflexivity.
  destruct (scaled_ok h m e 3000) as [nh Hnh]; try lia.
  rewrite (preprocess_upscaled rt img w h nw nh (Finite m e)); try done; [| lia].
  cbn [fst]. apply orb_true_iff in Hin as [H | H]; apply Z.eqb_eq in H; auto.
Qed.

End ImageFacts.

(** ** The height after upscaling *)

Section ImageHeight.

Import Float64 OCRService.
Local Open Scope Z_scope.

(** A quotient below [2^52] is rounded to a finite double whose integer
    part is at least the integer part of the quotient. *)
Lemma round64_floor_le (n d : Z) :
  0 ≤ n → 0 < d → n < d * 2 ^ 52 →
  ∃ m e, round64 n d = Finite m e ∧ n / d ≤ m * pow2 e / pow2 (- e).
Proof.
  intros Hn Hd Hlt. unfold round64.
  destruct (Z.eqb_spec n 0) as [-> | Hn0].
  { exists 0, (-1074). split; [reflexivity |]. rewrite Z.div_0_l by lia.
    reflexivity. }
  assert (Hk : ilog2_ratio n d ≤ 52).
  { pose proof (ilog2_ratio_le n d).
    pose proof (Z.log2_nonneg d).
    assert (d < 2 ^ (Z.log2 d + 1)) by (apply Z.log2_spec; lia).
    assert (n < 2 ^ (Z.log2 d + 53)).
    { replace (Z.log2 d + 53) with (Z.log2 d + 1 + 52) by lia.
      rewrite Z.pow_add_r by lia.
      pose proof (Z.pow_pos_nonneg 2 52 ltac:(lia) ltac:(lia)). nia. }
    pose proof (proj1 (Z.log2_lt_pow2 n (Z.log2 d + 53) ltac:(lia)) ltac:(lia)).
    lia. }
  set (e0 := Z.max (ilog2_ratio n d - 52) (-1074)).
  assert (He0 : e0 ≤ 0) by lia.
  rewrite (pow2_nonpos e0) by lia. rewrite (pow2_nonneg (- e0)) by lia.
  set (P := 2 ^ (- e0)).
  assert (HP : 0 < P) by (apply Z.pow_pos_nonneg; lia).
  rewrite Z.mul_1_r.
  pose proof (Z.mod_pos_bound (n * P) d Hd) as Hr.
  set (q := n * P / d) in *. set (r := (n * P) mod d) in *.
  cbv zeta.
  set (m0 := if 2 * r <? d then q else if d <? 2 * r then q + 1
             else if Z.even q then q else q + 1).
  assert (Hm0 : q ≤ m0).
  { unfold m0. destruct (_ <? _); [lia |]. destruct (_ <? _); [lia |].
    destruct (Z.even q); lia. }
  assert (Hfloor : n / d ≤ m0 / P).
  { transitivity (q / P); [| apply Z.div_le_mono; lia].
    unfold q. rewrite Z.div_div by lia.
    rewrite Z.div_mul_cancel_r by lia. lia. }
  destruct (Z.eqb_spec m0 (2 ^ 53)) as [Hbig | _].
  - destruct (Z.ltb_spec 971 (e0 + 1)); [lia |].
    exists (2 ^ 52), (e0 + 1). split; [reflexivity |].
    rewrite Hbig in Hfloor. etransitivity; [exact Hfloor |].
    apply Z.eq_le_incl. unfold P.
    destruct (Z.eq_dec e0 0) as [-> | Hne].
    + reflexivity.
    + rewrite (pow2_nonpos (e0 + 1)), (pow2_nonneg (- (e0 + 1))) by lia.
      rewrite Z.mul_1_r.
      replace (- e0) with (1 + - (e0 + 1)) by lia.
      rewrite (Z.pow_add_r 2 1 (- (e0 + 1))) by lia.
      change (2 ^ 53) with (2 ^ 1 * 2 ^ 52).
      rewrite Z.div_mul_cancel_l; [reflexivity | | lia].
      apply Z.pow_nonzero; lia.
  - destruct (Z.ltb_spec 971 e0); [lia |].
    exists m0, e0. split; [reflexivity |].
    rewrite (pow2_nonpos e0), (pow2_nonneg (- e0)) by lia.
    rewrite Z.mul_1_r. exact Hfloor.
Qed.

(** [float(i)] is exact below [2^52]. *)
Lemma of_int_exact (i : Z) :
  0 < i < 2 ^ 52 →
  ∃ m e, of_int i = Ok (Finite m e) ∧ m * pow2 e = i * pow2 (- e) ∧ 0 ≤ m.
Proof.
  intros Hi. unfold of_int, round64.
  destruct (Z.eqb_spec i 0); [lia |].
  pose proof (Z.log2_spec i ltac:(lia)) as [Hlo Hhi].
  pose proof (Z.log2_nonneg i) as Hk0.
  assert (Hk : Z.log2 i < 52) by (apply Z.log2_lt_pow2; lia).
  assert (Hilog : ilog2_ratio i 1 = Z.log2 i).
  { unfold ilog2_ratio. change (Z.log2 1) with 0. rewrite Z.sub_0_r.
    rewrite (pow2_nonneg (Z.log2 i)), (pow2_nonpos (- Z.log2 i)) by lia.
    destruct (Z.leb_spec (1 * 2 ^ Z.log2 i) (i * 1)); lia. }
  rewrite Hilog.
  set (e0 := Z.max (Z.log2 i - 52) (-1074)).
  assert (He0 : e0 = Z.log2 i - 52) by lia.
  rewrite (pow2_nonpos e0), (pow2_nonneg (- e0)) by lia.
  change (1 * 1) with 1. rewrite Z.div_1_r, Z.mod_1_r.
  change (2 * 0 <? 1) with true. cbv iota.
  assert (Hq : i * 2 ^ (- e0) < 2 ^ 53).
  { replace 53 with (Z.log2 i + 1 + - e0) by lia.
    rewrite (Z.pow_add_r 2 (Z.log2 i + 1) (- e0)) by lia.
    apply Z.mul_lt_mono_pos_r; [apply Z.pow_pos_nonneg; lia | lia]. }
  destruct (Z.eqb_spec (i * 2 ^ (- e0)) (2 ^ 53)); [lia |].
  destruct (Z.ltb_spec 971 e0); [lia |].
  exists (i * 2 ^ (- e0)), e0. split; [reflexivity |].
  rewrite (pow2_nonpos e0), (pow2_nonneg (- e0)) by lia.
  split; [lia |].
  pose proof (Z.pow_pos_nonneg 2 (- e0) ltac:(lia) ltac:(lia)). nia.
Qed.

(** The exact product of two doubles lies between the products of
    bounds on the factors. *)
Lemma product_bounds (m1 e1 m2 e2 A B : Z) :
  0 ≤ m1 → 0 ≤ m2 → 0 ≤ A → 0 ≤ B →
  (m1 * pow2 e1 ≤ A * pow2 (- e1) → m2 * pow2 e2 ≤ B * pow2 (- e2) →
   m1 * m2 * pow2 (e1 + e2) ≤ A * B * pow2 (- (e1 + e2)))
  ∧ (A * pow2 (- e1) ≤ m1 * pow2 e1 → B * pow2 (- e2) ≤ m2 * pow2 e2 →
     A * B * pow2 (- (e1 + e2)) ≤ m1 * m2 * pow2 (e1 + e2)).
Proof.
  intros Hm1 Hm2 HA HB.
  set (E := e1 + e2).
  pose proof (pow2_pos e1). pose proof (pow2_pos e2).
  pose proof (pow2_pos (- e1)). pose proof (pow2_pos (- e2)).
  pose proof (pow2_pos E). pose proof (pow2_pos (- E)).
  pose proof (pow2_balance e1 e2) as Hbal. fold E in Hbal.
  assert (Hl : m1 * m2 * pow2 E * (pow2 (- e1) * pow2 (- e2))
               = m1 * m2 * (pow2 e1 * pow2 e2) * pow2 (- E)).
  { transitivity (m1 * m2 * (pow2 (- e1) * pow2 (- e2) * pow2 E)); [ring |].
    rewrite <- Hbal. ring. }
  assert (Hr : A * B * pow2 (- E) * (pow2 (- e1) * pow2 (- e2))
               = A * B * (pow2 (- e1) * pow2 (- e2)) * pow2 (- E)) by ring.
  split; intros Hf1 Hf2.
  - apply (Z.mul_le_mono_pos_r _ _ (pow2 (- e1) * pow2 (- e2))); [nia |].
    rewrite Hl, Hr. apply Z.mul_le_mono_nonneg_r; [lia |]. nia.
  - apply (Z.mul_le_mono_pos_r _ _ (pow2 (- e1) * pow2 (- e2))); [nia |].
    rewrite Hl, Hr. apply Z.mul_le_mono_nonneg_r; [lia |]. nia.
Qed.

(** [int(h * s)] is at least [h * k] when the double [s] is at least the
    integer [k]. *)
Lemma scaled_ge (h m e k B : Z) :
  0 < h < 2 ^ 31 → 0 ≤ m → 0 ≤ k → 0 ≤ B < 2 ^ 20 →
  k * pow2 (- e) ≤ m * pow2 e → m * pow2 e ≤ B * pow2 (- e) →
  ∃ v, scaled h (Finite m e) = Ok v ∧ h * k ≤ v.
Proof.
  intros Hh Hm Hk HB Hlo Hhi. unfold scaled, int_mul.
  destruct (of_int_exact h) as (m1 & e1 & -> & Hv1 & Hm1).
  { split; [lia |]. apply Z.lt_trans with (2 ^ 31); [lia | reflexivity]. }
  rewrite bind_Ok. cbn -[round64 pow2 Z.mul Z.div].
  destruct (product_bounds m1 e1 m e h B) as [Hup _]; try lia.
  destruct (product_bounds m1 e1 m e h k) as [_ Hdn]; try lia.
  specialize (Hup ltac:(lia) Hhi). specialize (Hdn ltac:(lia) Hlo).
  set (n' := m1 * m * pow2 (e1 + e)) in *.
  set (d' := pow2 (- (e1 + e))) in *.
  pose proof (pow2_pos (- (e1 + e))) as Hd'. fold d' in Hd'.
  pose proof (pow2_pos (e1 + e)).
  destruct (round64_floor_le n' d') as (m' & e' & -> & Hfl).
  { unfold n'. nia. }
  { done. }
  { apply Z.le_lt_trans with (h * B * d'); [done |].
    rewrite (Z.mul_comm d').
    apply Z.mul_lt_mono_pos_r; [done |].
    apply Z.lt_trans with (2 ^ 31 * 2 ^ 20); [nia | reflexivity]. }
  cbn -[pow2 Z.mul Z.div]. eexists. split; [reflexivity |].
  etransitivity; [| exact Hfl].
  apply Z.div_le_lower_bound; [done |]. lia.
Qed.

(** X18.  Upscaling never shrinks the height: for a width from 1 to 999
    the new height is at least the old height times the integer part of
    1500 / width, hence at least the old height, and never 0. *)
Theorem upscaled_height_grows (rt : runtime) (img : pil_image) (w h : Z) :
  pil_succeeds rt → size img = (w, h) → 0 < w < 1000 → 0 < h < 2 ^ 31 →
  h * (1500 / w) ≤ snd (size (_preprocess_image rt img))
  ∧ h ≤ snd (size (_preprocess_image rt img)).
Proof.
  intros Hpil Hsize Hw Hh.
  assert (Hk : 1 ≤ 1500 / w).
  { apply Z.div_le_lower_bound; lia. }
  enough (h * (1500 / w) ≤ snd (size (_preprocess_image rt img))) by nia.
  destruct (round64_floor_le 1500 w) as (m & e & Hr & Hfl); [lia | lia | |].
  { pose proof (Z.pow_pos_nonneg 2 52 ltac:(lia) ltac:(lia)).
    apply Z.lt_le_trans with (1 * 2 ^ 52); [reflexivity | nia]. }
  assert (Hs : int_truediv 1500 w = Ok (Finite m e)).
  { unfold int_truediv. destruct (Z.eqb_spec w 0); [lia |]. by rewrite Hr. }
  destruct (int_truediv_ok 1500 w) as (m0 & e0 & Hs' & Hm & Hv); [done | lia |].
  rewrite Hs in Hs'. injection Hs' as <- <-.
  pose proof (pow2_pos e). pose proof (pow2_pos (- e)).
  assert (Hlo : 1500 / w * pow2 (- e) ≤ m * pow2 e).
  { pose proof (Z.mul_div_le (m * pow2 e) (pow2 (- e)) ltac:(lia)). nia. }
  assert (Hpw : 2 ^ 31 < 2 ^ 32) by reflexivity.
  destruct (scaled_ok w m e 3000) as [nw Hnw]; try lia.
  destruct (scaled_ge h m e (1500 / w) 3000) as (nh & Hnh & Hge); try lia.
  rewrite (preprocess_upscaled rt img w h nw nh (Finite m e)); try done; lia.
Qed.

End ImageHeight.

(** ** File names without an extension *)

Section EndpointNames.

Import OCRService Endpoint.

Variable allowed_listing : pystr.

(** X19.  A file name without a full stop is its own extension: with a
    content type that starts with image/, such a file is accepted exactly
    when the whole name, lower-cased, is one of the allowed extensions. *)
Theorem name_without_stop_is_its_extension (name ct : pystr)
    (rd : result (list Byte.byte)) :
  name ≠ [] →
  Forall (λ x, x ≠ 46) name →
  startswith (str "image/") ct = true →
  validate_image_file allowed_listing
    {| filename := Some name; content_type := Some ct; read := rd |}
  = Return ()
  ↔ member (lower name) ALLOWED_EXTENSIONS = true.
Proof.
  intros Hne Hname Hct. unfold validate_image_file.
  cbn [filename content_type].
  destruct name as [|c name'] eqn:Hn; [done |]. rewrite <- Hn in *.
  rewrite (split_on_plain 46 name Hname). cbn [List.last].
  destruct (member (lower name) ALLOWED_EXTENSIONS); cbn [negb].
  - rewrite Hct. destruct ct; [discriminate |]. cbn. done.
  - split; discriminate.
Qed.

End EndpointNames.

(** ** The properties above on sample inputs *)

Section MoreSamples.

Import Re Float64 Strptime OCRService Endpoint.

Lemma description_is_clean_witness :
  (3 < length (str "Uber BV") ≤ 100)%nat
  ∧ Forall (λ x, description_char x = true) (str "Uber BV")
  ∧ no_leading_space (str "Uber BV").
Proof.
  apply (description_is_clean Sample.uber_receipt (str "Uber BV")).
  vm_compute. reflexivity.
Defined.

Lemma description_reads_five_lines_witness :
  _extract_description (Upload.five_lines ++ 10 :: str "Grand Hotel")
  = _extract_description Upload.five_lines.
Proof.
  apply (description_reads_five_lines Upload.five_lines (str "Grand Hotel")).
  apply Nat.leb_le. vm_compute. reflexivity.
Defined.

Lemma employee_name_shape_witness :
  (2 < length (str "John Smith"))%nat
  ∧ Forall (λ x, isdecimal x = false) (str "John Smith").
Proof.
  apply (employee_name_shape (str "Customer: john SMITH") (str "John Smith")).
  vm_compute. reflexivity.
Defined.


Lemma validation_reads_last_extension_witness :
  validate_image_file Upload.listing
    {| filename := Some (str "scan.2024" ++ 46 :: str "PNG");
       content_type := Some (str "image/png"); read := Ok [] |} = Return ()
  ↔ member (lower (str "PNG")) ALLOWED_EXTENSIONS = true.
Proof.
  apply (validation_reads_last_extension Upload.listing (str "scan.2024")
           (str "PNG") (str "image/png") (Ok [])).
  - repeat (constructor; [discriminate |]). constructor.
  - reflexivity.
Defined.

Lemma accepted_upload_is_answered_witness :
  let rt := Sample.undecodable in
  ∃ r, process_receipt_ocr rt (self rt) Upload.listing (Upload.png (Ok []))
       = Reply r
    ∧ success r = true
    ∧ extract_expense_details rt (self rt) [] = Ok (data r)
    ∧ well_formed (data r).
Proof.
  cbv zeta.
  apply (accepted_upload_is_answered Sample.undecodable
           (self Sample.undecodable) Upload.listing (Upload.png (Ok [])) []).
  - vm_compute. reflexivity.
  - reflexivity.
  - discriminate.
Defined.

Lemma oversized_upload_is_refused_witness :
  let rt := Sample.undecodable in
  process_receipt_ocr rt (self rt) Upload.listing
    (Upload.png (Ok Upload.too_many_bytes))
  = Abort 400 (str "File size exceeds maximum allowed size of 10.0MB").
Proof.
  cbv zeta.
  apply (oversized_upload_is_refused Sample.undecodable
           (self Sample.undecodable) Upload.listing
           (Upload.png (Ok Upload.too_many_bytes)) Upload.too_many_bytes).
  - reflexivity.
  - reflexivity.
  - unfold Upload.too_many_bytes. rewrite repeat_length, N2Nat.id. reflexivity.
Defined.

Lemma server_error_only_from_read_witness :
  let boom := {| exn_type := OSError; exn_message := str "connection lost" |} in
  ∃ e, read (Upload.png (Raise boom)) = Raise e
       ∧ str "Failed to process receipt: connection lost"
         = str "Failed to process receipt: " ++ exn_message e.
Proof.
  cbv zeta.
  apply (server_error_only_from_read Sample.undecodable
           (self Sample.undecodable) Upload.listing
           (Upload.png (Raise {| exn_type := OSError;
                                 exn_message := str "connection lost" |}))
           (str "Failed to process receipt: connection lost")).
  vm_compute. reflexivity.
Defined.

Lemma class_as_written_assembles_witness :
  let rt := Sample.reads Sample.uber_receipt in
  let text := Sample.uber_receipt in
  ∃ d a,
    _extract_date rt text = Ok (Some d)
    ∧ _extract_amount text = Ok a
    ∧ extract_expense_details rt (self rt) []
      = Ok (<["employee" := _extract_employee text]>
           (<["description" := _extract_description text]>
           (<["date" := Some d]>
           (<["category" := Some (_extract_category text)]>
           (<["paid_by" := Some (_extract_payment_method text)]>
           (<["remark" := _extract_remark text]>
           (<["amount" := a]> ∅))))))).
Proof.
  cbv zeta.
  apply (class_as_written_assembles (Sample.reads Sample.uber_receipt) []
           (Sample.photo 800 601) Sample.uber_receipt).
  - reflexivity.
  - reflexivity.
  - vm_compute. reflexivity.
Defined.

Lemma preprocessing_is_best_effort_witness :
  size (_preprocess_image (Sample.reads []) (Sample.photo 0 10))
  = size (Sample.photo 0 10).
Proof.
  apply (preprocessing_is_best_effort (Sample.reads []) (Sample.photo 0 10)).
  - intros im m im' H. injection H as <-. reflexivity.
  - left. reflexivity.
Defined.

Lemma upscaled_width_is_1500_or_1499_witness :
  fst (size (_preprocess_image (Sample.reads []) (Sample.photo 91 100))) = 1500%Z
  ∨ fst (size (_preprocess_image (Sample.reads []) (Sample.photo 91 100))) = 1499%Z.
Proof.
  apply (upscaled_width_is_1500_or_1499 (Sample.reads [])
           (Sample.photo 91 100) 91 100).
  - split; intros; eexists; split; reflexivity.
  - reflexivity.
  - split; reflexivity.
  - split; reflexivity.
Defined.

Lemma upscaled_height_grows_witness :
  (100 * (1500 / 91) ≤ snd (size (_preprocess_image (Sample.reads [])
                                    (Sample.photo 91 100))))%Z
  ∧ (100 ≤ snd (size (_preprocess_image (Sample.reads [])
                        (Sample.photo 91 100))))%Z.
Proof.
  apply (upscaled_height_grows (Sample.reads []) (Sample.photo 91 100)
           91 100).
  - split; intros; eexists; split; reflexivity.
  - reflexivity.
  - split; reflexivity.
  - split; reflexivity.
Defined.

Lemma name_without_stop_is_its_extension_witness :
  validate_image_file (str "png, jpg")
    {| filename := Some (str "JPEG"); content_type := Some (str "image/jpeg");
       read := Ok [] |}
  = Return ()
  ↔ member (lower (str "JPEG")) ALLOWED_EXTENSIONS = true.
Proof.
  apply (name_without_stop_is_its_extension (str "png, jpg") (str "JPEG")
           (str "image/jpeg") (Ok [])).
  - discriminate.
  - repeat (constructor; [discriminate |]). constructor.
  - reflexivity.
Defined.

End MoreSamples.
